(** * The instruction layer of the TurboFan backend, embedded in Rocq

    A shallow embedding of [src/compiler/instruction.cc] (operands, parallel
    moves, pointer maps and the [InstructionSequence] build API) and of the
    loop helpers of [src/compiler/schedule.h], with the properties the
    specification states about them.

    Conventions.
    - A C++ [int] is a [Z]; [static_cast<int>] of a container size wraps
      around at 32 bits ([static_cast_int]).
    - Objects that the C++ code reaches through pointers and mutates
      (instructions, pointer maps) live in a [Zone]; a pointer is the index
      of the object in the zone.
    - A [DCHECK] that does not hold ends the run with [AssertionFailed]
      (debug build); an access the C++ standard leaves undefined (a raw
      array or [std::vector] read out of range, a dangling pointer) ends it
      with [Undefined]. *)

From Stdlib Require Import ZArith List Bool Lia.
From stdpp Require Import base list gmap strings.
From Equations Require Import Equations.
From Equations.Prop Require Logic.
Import ListNotations.

Local Open Scope Z_scope.

(** ** Outcomes of a call *)

Inductive outcome (A : Type) : Type :=
| Ok (a : A)
| AssertionFailed
| Undefined.

Arguments Ok {A} a.
Arguments AssertionFailed {A}.
Arguments Undefined {A}.

Definition bind {A B : Type} (m : outcome A) (k : A -> outcome B) : outcome B :=
  match m with
  | Ok a => k a
  | AssertionFailed => AssertionFailed
  | Undefined => Undefined
  end.

Declare Scope outcome_scope.
Delimit Scope outcome_scope with outcome.
Notation "'do' x <- m ; k" := (bind m (fun x => k))
  (at level 10, x pattern, m at level 100, k at level 200) : outcome_scope.
Notation "'do' '_' <- m ; k" := (bind m (fun _ => k))
  (at level 10, m at level 100, k at level 200) : outcome_scope.
Local Open Scope outcome_scope.

(** [DCHECK(cond)] *)
Definition DCHECK (cond : bool) : outcome unit :=
  if cond then Ok tt else AssertionFailed.

(** A pointer dereference: the object stored at address [p] of a zone region. *)
Definition deref {A : Type} (region : list A) (p : nat) : outcome A :=
  match region !! p with
  | Some a => Ok a
  | None => Undefined
  end.

(** ** Machine integers *)

Definition kMinInt : Z := - 2 ^ 31.
Definition kMaxInt : Z := 2 ^ 31 - 1.

(** Two's complement wrap-around to 32 bits. *)
Definition wrap_int (z : Z) : Z := (z + 2 ^ 31) mod 2 ^ 32 - 2 ^ 31.

(** [static_cast<int>(v.size())] *)
Definition static_cast_int (size : nat) : Z := wrap_int (Z.of_nat size).

(** ** Operands *)

Module InstructionOperand.

(** The kinds that [operator<<(std::ostream&, const InstructionOperand&)]
    switches over. *)
Inductive Kind : Set :=
| INVALID
| UNALLOCATED
| CONSTANT
| IMMEDIATE
| STACK_SLOT
| DOUBLE_STACK_SLOT
| REGISTER
| DOUBLE_REGISTER.

(** The allocation policy of an unallocated operand: the basic policy
    [FIXED_SLOT] with its slot, or one of the extended policies. *)
Inductive Policy : Set :=
| FIXED_SLOT (fixed_slot_index : Z)
| NONE
| FIXED_REGISTER (fixed_register_index : Z)
| FIXED_DOUBLE_REGISTER (fixed_register_index : Z)
| MUST_HAVE_REGISTER
| SAME_AS_FIRST_INPUT
| ANY.

(** Modelled from the spec: the class [InstructionOperand] is declared in
    [instruction.h], which is not part of the sources at hand.  The spec
    gives it as a tagged variant: invalid, unallocated (virtual register
    and policy), or one of six kinds that carry a signed index. *)
Inductive t : Set :=
| Invalid
| Unallocated (virtual_register : Z) (policy : Policy)
| Constant (index : Z)
| Immediate (index : Z)
| StackSlot (index : Z)
| DoubleStackSlot (index : Z)
| Register (index : Z)
| DoubleRegister (index : Z).

Definition kind (op : t) : Kind :=
  match op with
  | Invalid => INVALID
  | Unallocated _ _ => UNALLOCATED
  | Constant _ => CONSTANT
  | Immediate _ => IMMEDIATE
  | StackSlot _ => STACK_SLOT
  | DoubleStackSlot _ => DOUBLE_STACK_SLOT
  | Register _ => REGISTER
  | DoubleRegister _ => DOUBLE_REGISTER
  end.

(** [op->index()].  The code reads it only on the indexed kinds; on the
    two others the model answers 0. *)
Definition index (op : t) : Z :=
  match op with
  | Invalid | Unallocated _ _ => 0
  | Constant i | Immediate i | StackSlot i | DoubleStackSlot i
  | Register i | DoubleRegister i => i
  end.

Definition IsStackSlot (op : t) : bool :=
  match kind op with STACK_SLOT => true | _ => false end.
Definition IsDoubleStackSlot (op : t) : bool :=
  match kind op with DOUBLE_STACK_SLOT => true | _ => false end.
Definition IsDoubleRegister (op : t) : bool :=
  match kind op with DOUBLE_REGISTER => true | _ => false end.

#[global] Instance Policy_eq_dec : EqDecision Policy.
Proof. solve_decision. Defined.

#[global] Instance t_eq_dec : EqDecision t.
Proof. solve_decision. Defined.

(** [a->Equals(b)]: structural equality (kind, index, policy). *)
Definition Equals (a b : t) : bool := bool_decide (a = b).

End InstructionOperand.

Abbreviation Operand := InstructionOperand.t.
Import InstructionOperand.

(** ** Moves *)

Module MoveOperands.

(** Modelled from the spec: [MoveOperands] is declared in [instruction.h],
    which is not part of the sources at hand.  The spec gives it as an
    ordered (source, destination) pair that may be marked eliminated, the
    slot being retained. *)
Record t : Set := Build {
  source : Operand;
  destination : Operand;
  eliminated : bool
}.

Definition IsEliminated (m : t) : bool := eliminated m.

(** Modelled from the spec: [MoveOperands::IsRedundant] ([instruction.h]).
    A move is redundant iff its source equals its destination; an
    eliminated move is logically removed and does not count against the
    parallel move that holds it. *)
Definition IsRedundant (m : t) : bool :=
  IsEliminated m || Equals (source m) (destination m).

End MoveOperands.

Module ParallelMove.

Record t : Set := Build {
  move_operands_ : list MoveOperands.t
}.

(** The loop of [ParallelMove::IsRedundant], started at the moves that are
    still to be visited:
<<
    for (int i = 0; i < move_operands_.length(); ++i) {
      if (!move_operands_[i].IsRedundant()) return false;
    }
    return true;
>> *)
Fixpoint IsRedundant_loop (rest : list MoveOperands.t) : bool :=
  match rest with
  | [] => true
  | m :: rest' =>
      if negb (MoveOperands.IsRedundant m) then false
      else IsRedundant_loop rest'
  end.

Definition IsRedundant (pm : t) : bool :=
  IsRedundant_loop (move_operands_ pm).

End ParallelMove.

(** ** Pointer maps *)

Module PointerMap.

(** The operand lists hold [InstructionOperand*]; [Equals] compares the
    pointees, and none of the operations below writes to an operand, so
    the lists are modelled as lists of operand values.
    [instruction_position_] is [None] until [set_instruction_position]. *)
Record t : Set := Build {
  pointer_operands_ : list Operand;
  untagged_operands_ : list Operand;
  instruction_position_ : option Z
}.

(** Modelled from the spec: the constructor of [PointerMap]
    ([instruction.h]) makes a new, empty pointer map. *)
Definition New : t := Build [] [] None.

Definition set_pointer_operands (ops : list Operand) (pm : t) : t :=
  Build ops (untagged_operands_ pm) (instruction_position_ pm).

Definition set_untagged_operands (ops : list Operand) (pm : t) : t :=
  Build (pointer_operands_ pm) ops (instruction_position_ pm).

Definition set_instruction_position (pos : Z) (pm : t) : t :=
  Build (pointer_operands_ pm) (untagged_operands_ pm) (Some pos).

(** [op->IsStackSlot() && op->index() < 0]: an incoming argument. *)
Definition IsArgument (op : Operand) : bool :=
  IsStackSlot op && (index op <? 0).

(** [!op->IsDoubleRegister() && !op->IsDoubleStackSlot()] *)
Definition NotDouble (op : Operand) : bool :=
  negb (IsDoubleRegister op) && negb (IsDoubleStackSlot op).

Definition RecordPointer (op : Operand) (pm : t) : outcome t :=
  if IsArgument op then Ok pm
  else
    do _ <- DCHECK (NotDouble op);
    Ok (set_pointer_operands (pointer_operands_ pm ++ [op]) pm).

Definition RecordUntagged (op : Operand) (pm : t) : outcome t :=
  if IsArgument op then Ok pm
  else
    do _ <- DCHECK (NotDouble op);
    Ok (set_untagged_operands (untagged_operands_ pm ++ [op]) pm).

(** The loop of [PointerMap::RemovePointer], at index [i]:
<<
    for (int i = 0; i < pointer_operands_.length(); ++i) {
      if (pointer_operands_[i]->Equals(op)) {
        pointer_operands_.Remove(i);
        --i;
      }
    }
>>
    [Remove(i)] shifts the later entries down by one; after it, [--i]
    followed by the loop's [++i] visits index [i] again. *)
Equations? RemovePointer_loop (op : Operand) (i : nat) (ops : list Operand)
  : list Operand by wf (length ops - i)%nat lt :=
  RemovePointer_loop op i ops with Logic.inspect (ops !! i) => {
    | exist _ None _ := ops;
    | exist _ (Some e) Hi with Equals e op => {
        | true := RemovePointer_loop op i (delete i ops);
        | false := RemovePointer_loop op (S i) ops } }.
Proof.
  all: apply lookup_lt_Some in Hi.
  - rewrite length_delete by (apply lookup_lt_is_Some; lia). lia.
  - lia.
Qed.

Definition RemovePointer (op : Operand) (pm : t) : outcome t :=
  if IsArgument op then Ok pm
  else
    do _ <- DCHECK (NotDouble op);
    Ok (set_pointer_operands (RemovePointer_loop op 0 (pointer_operands_ pm)) pm).

End PointerMap.

(** ** Instructions *)

(** Pointers into the zone. *)
Abbreviation InstructionPtr := nat (only parsing).
Abbreviation PointerMapPtr := nat (only parsing).
Abbreviation BasicBlockPtr := nat (only parsing).
Abbreviation FrameStateDescriptorPtr := nat (only parsing).

Module Instruction.

(** The instruction classes that [operator<<(std::ostream&, const
    Instruction&)] tells apart with [IsGapMoves], [IsBlockStart] and
    [IsSourcePosition].  A gap holds its parallel-move slots, each of them
    null until a move is added; a block start is a gap that also knows its
    block. *)
Inductive Class : Set :=
| Arch (opcode : Z)
| Gap (parallel_moves_ : list (option ParallelMove.t))
| BlockStart (parallel_moves_ : list (option ParallelMove.t))
             (block_ : BasicBlockPtr)
| SourcePosition (source_position_ : Z).

(** [IsControl] and [NeedsPointerMap] are accessors of [instruction.h];
    [AddInstruction] only reads them, so they are fields here. *)
Record t : Set := Build {
  class : Class;
  outputs_ : list Operand;
  inputs_ : list Operand;
  IsControl : bool;
  NeedsPointerMap : bool;
  pointer_map_ : option PointerMapPtr
}.

Definition pointer_map (instr : t) : option PointerMapPtr := pointer_map_ instr.

Definition set_pointer_map (pm : PointerMapPtr) (instr : t) : t :=
  Build (class instr) (outputs_ instr) (inputs_ instr)
        (IsControl instr) (NeedsPointerMap instr) (Some pm).

Definition OutputCount (instr : t) : nat := length (outputs_ instr).
Definition InputCount (instr : t) : nat := length (inputs_ instr).

Definition IsBlockStart (instr : t) : bool :=
  match class instr with BlockStart _ _ => true | _ => false end.

Definition IsGapMoves (instr : t) : bool :=
  match class instr with Gap _ | BlockStart _ _ => true | _ => false end.

Definition IsSourcePosition (instr : t) : bool :=
  match class instr with SourcePosition _ => true | _ => false end.

(** [BlockStartInstruction::cast(instr)->block()] *)
Definition block (instr : t) : outcome BasicBlockPtr :=
  match class instr with
  | BlockStart _ b => Ok b
  | _ => Undefined
  end.

End Instruction.

Module GapInstruction.

(** The spec gives a gap four parallel-move slots. *)
Definition kPositions : nat := 4.

(** Modelled from the spec: [GapInstruction::New(zone)] ([instruction.h])
    makes a fresh gap instruction with every slot empty.  It is not a
    control instruction and needs no pointer map. *)
Definition New : Instruction.t :=
  Instruction.Build (Instruction.Gap (repeat None kPositions)) [] []
                    false false None.

End GapInstruction.

(** ** The zone *)

Module Zone.

(** The objects allocated so far; [New] puts an object behind the others
    and its address is the old size of the region. *)
Record t : Set := Build {
  instructions : list Instruction.t;
  pointer_maps : list PointerMap.t
}.

Definition NewInstruction (instr : Instruction.t) (z : t) : InstructionPtr * t :=
  (length (instructions z), Build (instructions z ++ [instr]) (pointer_maps z)).

Definition NewPointerMap (pm : PointerMap.t) (z : t) : PointerMapPtr * t :=
  (length (pointer_maps z), Build (instructions z) (pointer_maps z ++ [pm])).

(** A write through an instruction pointer. *)
Definition store_instruction (p : InstructionPtr) (instr : Instruction.t) (z : t) : t :=
  Build (<[p := instr]> (instructions z)) (pointer_maps z).

End Zone.

(** ** Instruction sequences *)

Module InstructionSequence.

(** Modelled from the spec: [StateId] ([instruction.h]) is an opaque
    sequential id around an [int]. *)
Record StateId : Set := FromInt { ToInt : Z }.

(** The members that the build API below reads and writes. *)
Record t : Set := Build {
  zone : Zone.t;
  node_map_ : list Z;
  instructions_ : list InstructionPtr;
  next_virtual_register_ : Z;
  pointer_maps_ : list PointerMapPtr;
  deoptimization_entries_ : list FrameStateDescriptorPtr
}.

Definition set_zone (z : Zone.t) (s : t) : t :=
  Build z (node_map_ s) (instructions_ s) (next_virtual_register_ s)
        (pointer_maps_ s) (deoptimization_entries_ s).
Definition set_node_map (m : list Z) (s : t) : t :=
  Build (zone s) m (instructions_ s) (next_virtual_register_ s)
        (pointer_maps_ s) (deoptimization_entries_ s).
Definition set_instructions (l : list InstructionPtr) (s : t) : t :=
  Build (zone s) (node_map_ s) l (next_virtual_register_ s)
        (pointer_maps_ s) (deoptimization_entries_ s).
Definition set_next_virtual_register (v : Z) (s : t) : t :=
  Build (zone s) (node_map_ s) (instructions_ s) v
        (pointer_maps_ s) (deoptimization_entries_ s).
Definition set_pointer_maps (l : list PointerMapPtr) (s : t) : t :=
  Build (zone s) (node_map_ s) (instructions_ s) (next_virtual_register_ s)
        l (deoptimization_entries_ s).
Definition set_deoptimization_entries (l : list FrameStateDescriptorPtr) (s : t) : t :=
  Build (zone s) (node_map_ s) (instructions_ s) (next_virtual_register_ s)
        (pointer_maps_ s) l.

(** The constructor, for a graph of [NodeCount] nodes living in zone [z]:
    every container starts empty, the counter at 0 and every entry of
    [node_map_] at -1. *)
Definition New (z : Zone.t) (NodeCount : Z) : t :=
  Build z (replicate (Z.to_nat NodeCount) (-1)) [] 0 [] [].

(** Modelled from the spec: [NextVirtualRegister] ([instruction.h]) hands
    out the counter and moves it to the next fresh id. *)
Definition NextVirtualRegister (s : t) : Z * t :=
  (next_virtual_register_ s,
   set_next_virtual_register (wrap_int (next_virtual_register_ s + 1)) s).

(** [node_map_[id]], a read of a raw [int] array of [NodeCount] entries. *)
Definition node_map_at (id : Z) (s : t) : outcome Z :=
  if id <? 0 then Undefined else deref (node_map_ s) (Z.to_nat id).

(** [GetVirtualRegister(node)], given [node->id()]. *)
Definition GetVirtualRegister (id : Z) (s : t) : outcome (Z * t) :=
  do v <- node_map_at id s;
  let s1 :=
    if v =? -1 then
      let '(r, s') := NextVirtualRegister s in
      set_node_map (<[Z.to_nat id := r]> (node_map_ s')) s'
    else s in
  do r <- node_map_at id s1;
  Ok (r, s1).

(** [AddInstruction(instr, block)] *)
Definition AddInstruction (instr : InstructionPtr) (block : BasicBlockPtr)
                          (s : t) : outcome (Z * t) :=
  do i <- deref (Zone.instructions (zone s)) instr;
  let '(gap, z1) := Zone.NewInstruction GapInstruction.New (zone s) in
  let l1 :=
    if Instruction.IsControl i then instructions_ s ++ [gap]
    else instructions_ s in
  let index := static_cast_int (length l1) in
  let l2 := l1 ++ [instr] in
  let l3 := if negb (Instruction.IsControl i) then l2 ++ [gap] else l2 in
  let s1 := set_instructions l3 (set_zone z1 s) in
  if Instruction.NeedsPointerMap i then
    do _ <- DCHECK (bool_decide (Instruction.pointer_map i = None));
    let '(pointer_map, z2) :=
      Zone.NewPointerMap (PointerMap.set_instruction_position index PointerMap.New)
                         z1 in
    let z3 := Zone.store_instruction instr (Instruction.set_pointer_map pointer_map i) z2 in
    Ok (index, set_pointer_maps (pointer_maps_ s1 ++ [pointer_map]) (set_zone z3 s1))
  else Ok (index, s1).

(** Modelled from the spec: [InstructionAt(index)] ([instruction.h]) reads
    the instruction list; an index past its bounds is caught by an
    assertion. *)
Definition InstructionAt (index : Z) (s : t) : outcome Instruction.t :=
  do _ <- DCHECK ((0 <=? index) && (index <? Z.of_nat (length (instructions_ s))));
  do p <- deref (instructions_ s) (Z.to_nat index);
  deref (Zone.instructions (zone s)) p.

(** [GetBasicBlock(instruction_index)]:
<<
    for (;;) {
      DCHECK_LE(0, instruction_index);
      Instruction* instruction = InstructionAt(instruction_index--);
      if (instruction->IsBlockStart()) {
        return BlockStartInstruction::cast(instruction)->block();
      }
    }
>>
    The index is at least 0 when it is decremented, so the decrement does
    not wrap. *)
Equations? GetBasicBlock (instruction_index : Z) (s : t)
  : outcome BasicBlockPtr by wf (Z.to_nat (instruction_index + 1)) lt :=
  GetBasicBlock instruction_index s with Z_le_dec 0 instruction_index => {
    | right _ := AssertionFailed;
    | left _ with InstructionAt instruction_index s => {
        | AssertionFailed := AssertionFailed;
        | Undefined := Undefined;
        | Ok instruction with Instruction.IsBlockStart instruction => {
            | true := Instruction.block instruction;
            | false := GetBasicBlock (instruction_index - 1) s } } }.
Proof. lia. Qed.

(** [AddFrameStateDescriptor(descriptor)] *)
Definition AddFrameStateDescriptor (descriptor : FrameStateDescriptorPtr)
                                   (s : t) : StateId * t :=
  let deoptimization_id := static_cast_int (length (deoptimization_entries_ s)) in
  (FromInt deoptimization_id,
   set_deoptimization_entries (deoptimization_entries_ s ++ [descriptor]) s).

(** [GetFrameStateDescriptor(state_id)]: [deoptimization_entries_[i]] on a
    vector converts the [int] to an unsigned size, so a negative id is out
    of range like one past the end. *)
Definition GetFrameStateDescriptor (state_id : StateId) (s : t)
  : outcome FrameStateDescriptorPtr :=
  if ToInt state_id <? 0 then Undefined
  else deref (deoptimization_entries_ s) (Z.to_nat (ToInt state_id)).

(** [GetFrameStateDescriptorCount()] *)
Definition GetFrameStateDescriptorCount (s : t) : Z :=
  static_cast_int (length (deoptimization_entries_ s)).

End InstructionSequence.

(** ** Basic blocks *)

Module BasicBlock.

Inductive Control : Set := kNone | kGoto | kBranch | kReturn | kThrow.

(** The scalar members of [class BasicBlock] ([schedule.h]). *)
Record t : Set := Build {
  rpo_number_ : Z;
  loop_depth_ : Z;
  loop_end_ : Z;
  code_start_ : Z;
  code_end_ : Z;
  deferred_ : bool;
  control_ : Control
}.

Definition rpo_number (b : t) : Z := rpo_number_ b.
Definition loop_end (b : t) : Z := loop_end_ b.

(** [inline bool IsLoopHeader() const { return loop_end_ >= 0; }] *)
Definition IsLoopHeader (b : t) : bool := loop_end_ b >=? 0.

Definition first_instruction_index (b : t) : outcome Z :=
  do _ <- DCHECK (code_start_ b >=? 0);
  do _ <- DCHECK (code_end_ b >? 0);
  do _ <- DCHECK (code_end_ b >=? code_start_ b);
  Ok (code_start_ b).

Definition last_instruction_index (b : t) : outcome Z :=
  do _ <- DCHECK (code_start_ b >=? 0);
  do _ <- DCHECK (code_end_ b >? 0);
  do _ <- DCHECK (code_end_ b >=? code_start_ b);
  Ok (code_end_ b - 1).

(** Modelled from the spec: [BasicBlock::LoopContains] is only declared in
    [schedule.h]; its body is not part of the sources at hand.  By the
    spec, [h.LoopContains(b)] is defined iff [h.IsLoopHeader()] and is
    then true iff [h.rpo_number <= b.rpo_number < h.loop_end]. *)
Definition LoopContains (h b : t) : option bool :=
  if IsLoopHeader h then
    Some ((rpo_number h <=? rpo_number b) && (rpo_number b <? loop_end h))
  else None.

End BasicBlock.

(** ** Vocabulary of the specification *)

(** A stack slot with negative index: an incoming argument of the caller. *)
Definition negative_stack_slot (op : Operand) : Prop :=
  exists i, op = StackSlot i /\ i < 0.

(** A double-typed operand: a double register or a double stack slot. *)
Definition double_typed (op : Operand) : Prop :=
  exists i, op = DoubleRegister i \/ op = DoubleStackSlot i.

(** [k] calls of the same operation, one after the other. *)
Fixpoint call_times {A : Type} (k : nat) (f : A -> outcome A) (a : A) : outcome A :=
  match k with
  | O => Ok a
  | S k' => do a' <- f a; call_times k' f a'
  end.

(** The list [l] without the entries equal to [op], the others in their
    order. *)
Definition without (op : Operand) (l : list Operand) : list Operand :=
  filter (fun e => e <> op) l.

(** One call [RemovePointer(op)] on [pm] removes every entry
    equal to [op] and keeps the rest in order. *)
Definition removes_every_equal_entry (op : Operand) (pm : PointerMap.t) : Prop :=
  PointerMap.RemovePointer op pm
  = Ok (PointerMap.set_pointer_operands
          (without op (PointerMap.pointer_operands_ pm)) pm).

(** The calls that change a pointer map, and a run of them. *)
Inductive PointerMapCall : Set :=
| CallRecordPointer (op : Operand)
| CallRecordUntagged (op : Operand)
| CallRemovePointer (op : Operand).

Definition pointer_map_call (c : PointerMapCall) (pm : PointerMap.t)
  : outcome PointerMap.t :=
  match c with
  | CallRecordPointer op => PointerMap.RecordPointer op pm
  | CallRecordUntagged op => PointerMap.RecordUntagged op pm
  | CallRemovePointer op => PointerMap.RemovePointer op pm
  end.

Fixpoint pointer_map_calls (cs : list PointerMapCall) (pm : PointerMap.t)
  : outcome PointerMap.t :=
  match cs with
  | [] => Ok pm
  | c :: cs' => do pm' <- pointer_map_call c pm; pointer_map_calls cs' pm'
  end.

(** The invariant of the pointer-operand list. *)
Definition pointer_operands_ok (pm : PointerMap.t) : Prop :=
  forall op, In op (PointerMap.pointer_operands_ pm) ->
             ~ double_typed op /\ ~ negative_stack_slot op.

(** [GetVirtualRegister] called for the nodes of [ids], in that order; the
    ids it returned, in the order of the calls. *)
Fixpoint GetVirtualRegisters (ids : list Z) (s : InstructionSequence.t)
  : outcome (list Z * InstructionSequence.t) :=
  match ids with
  | [] => Ok ([], s)
  | id :: rest =>
      do (r, s1) <- InstructionSequence.GetVirtualRegister id s;
      do (rs, s2) <- GetVirtualRegisters rest s1;
      Ok (r :: rs, s2)
  end.

(** How many distinct nodes a list of node ids names. *)
Definition distinct (ids : list Z) : nat := length (remove_dups ids).

(** What holds of a sequence for a graph of [NodeCount] nodes after
    [GetVirtualRegister] was called for the nodes [called], in that order,
    and nothing else took a virtual register: the counter is the number of
    distinct nodes called, a node that was not called has -1 in [node_map_],
    and a node that was called has an id there. *)
Definition vreg_invariant (NodeCount : Z) (called : list Z)
                          (s : InstructionSequence.t) : Prop :=
  Forall (fun id => 0 <= id < NodeCount) called
  /\ length (InstructionSequence.node_map_ s) = Z.to_nat NodeCount
  /\ InstructionSequence.next_virtual_register_ s = Z.of_nat (distinct called)
  /\ (forall id, 0 <= id < NodeCount -> id ∉ called ->
        InstructionSequence.node_map_ s !! Z.to_nat id = Some (-1))
  /\ (forall id, id ∈ called ->
        exists v, InstructionSequence.node_map_ s !! Z.to_nat id = Some v /\ 0 <= v).

(** [AddFrameStateDescriptor] called for the descriptors of [ds], in that
    order; the ids it returned, in the order of the calls. *)
Fixpoint AddFrameStateDescriptors (ds : list FrameStateDescriptorPtr)
                                  (s : InstructionSequence.t)
  : list InstructionSequence.StateId * InstructionSequence.t :=
  match ds with
  | [] => ([], s)
  | d :: rest =>
      let '(id, s1) := InstructionSequence.AddFrameStateDescriptor d s in
      let '(ids, s2) := AddFrameStateDescriptors rest s1 in
      (id :: ids, s2)
  end.

(** The instruction stored at index [j] of the sequence, if there is one. *)
Definition stored_at (s : InstructionSequence.t) (j : nat) : option Instruction.t :=
  match InstructionSequence.instructions_ s !! j with
  | Some p => Zone.instructions (InstructionSequence.zone s) !! p
  | None => None
  end.

(** The owning block of the instruction at index [j], when that instruction
    is a block start. *)
Definition block_start_at (s : InstructionSequence.t) (j : nat) : option BasicBlockPtr :=
  match stored_at s j with
  | Some instr =>
      match Instruction.class instr with
      | Instruction.BlockStart _ b => Some b
      | _ => None
      end
  | None => None
  end.

(** Every instruction pointer of the sequence points into the zone. *)
Definition pointers_valid (s : InstructionSequence.t) : Prop :=
  forall j p, InstructionSequence.instructions_ s !! j = Some p ->
              (p < length (Zone.instructions (InstructionSequence.zone s)))%nat.

(** ** Sample objects *)

(** An add that writes [v0] (architecture opcode 1). *)
Definition sample_add : Instruction.t :=
  Instruction.Build (Instruction.Arch 1) [Unallocated 0 MUST_HAVE_REGISTER]
                    [Unallocated 1 ANY; Unallocated 2 ANY] false false None.

(** A call: it can trigger a collection, so it needs a pointer map. *)
Definition sample_call : Instruction.t :=
  Instruction.Build (Instruction.Arch 2) [Unallocated 3 (FIXED_REGISTER 0)]
                    [Immediate 0] false true None.

(** A return: it ends its block. *)
Definition sample_ret : Instruction.t :=
  Instruction.Build (Instruction.Arch 3) [] [Unallocated 3 (FIXED_REGISTER 0)]
                    true false None.

(** The start of block 5. *)
Definition sample_block_start : Instruction.t :=
  Instruction.Build (Instruction.BlockStart (repeat None GapInstruction.kPositions) 5)
                    [] [] false false None.

(** A zone that holds the four instructions above, at addresses 0 to 3, and
    a new sequence for a graph of four nodes in it. *)
Definition sample_zone : Zone.t :=
  Zone.Build [sample_add; sample_call; sample_ret; sample_block_start] [].

Definition sample_sequence : InstructionSequence.t :=
  InstructionSequence.New sample_zone 4.

(** A block known by its RPO number and loop end only. *)
Definition sample_block (rpo_number loop_end : Z) : BasicBlock.t :=
  BasicBlock.Build rpo_number 0 loop_end (-1) (-1) false BasicBlock.kNone.

(** The sequence after the block start, the add, the call and the return of
    the sample zone were added, in that order, for block 5. *)
Definition sample_code : InstructionSequence.t :=
  match
    (do (_, s1) <- InstructionSequence.AddInstruction 3 5 sample_sequence;
     do (_, s2) <- InstructionSequence.AddInstruction 0 5 s1;
     do (_, s3) <- InstructionSequence.AddInstruction 1 5 s2;
     do (_, s4) <- InstructionSequence.AddInstruction 2 5 s3;
     Ok s4)
  with
  | Ok s => s
  | _ => sample_sequence
  end.

(** ** Blocks of instructions *)

(** Modelled from the spec: [BasicBlock::set_code_start] and
    [BasicBlock::set_code_end] are only declared in [schedule.h]; they
    record the start and the end of the block's range of instructions. *)
Definition set_code_start (start : Z) (b : BasicBlock.t) : BasicBlock.t :=
  BasicBlock.Build (BasicBlock.rpo_number_ b) (BasicBlock.loop_depth_ b)
                   (BasicBlock.loop_end_ b) start (BasicBlock.code_end_ b)
                   (BasicBlock.deferred_ b) (BasicBlock.control_ b).

Definition set_code_end (end_ : Z) (b : BasicBlock.t) : BasicBlock.t :=
  BasicBlock.Build (BasicBlock.rpo_number_ b) (BasicBlock.loop_depth_ b)
                   (BasicBlock.loop_end_ b) (BasicBlock.code_start_ b) end_
                   (BasicBlock.deferred_ b) (BasicBlock.control_ b).

Module BlockStartInstruction.

(** Modelled from the spec: [BlockStartInstruction::New(zone, block)]
    ([instruction.h]) makes the instruction that marks the first instruction
    of [block]: a gap with empty slots that knows its block.  It is stored
    at [code_start] itself ([GetBlockStart] casts the instruction found
    there), so it is not a control instruction; it needs no pointer map. *)
Definition New (block : BasicBlockPtr) : Instruction.t :=
  Instruction.Build
    (Instruction.BlockStart (repeat None GapInstruction.kPositions) block)
    [] [] false false None.

End BlockStartInstruction.

(** The blocks live in the zone as well; [blocks] is that region, a
    [BasicBlock*] being an index into it. *)

(** [InstructionSequence::StartBlock(block)] *)
Definition StartBlock (block : BasicBlockPtr) (blocks : list BasicBlock.t)
                      (s : InstructionSequence.t)
  : outcome (list BasicBlock.t * InstructionSequence.t) :=
  do b <- deref blocks block;
  let blocks1 :=
    <[block := set_code_start
                 (static_cast_int (length (InstructionSequence.instructions_ s))) b]>
      blocks in
  let '(block_start, z1) :=
    Zone.NewInstruction (BlockStartInstruction.New block) (InstructionSequence.zone s) in
  do (_, s1) <- InstructionSequence.AddInstruction block_start block
                  (InstructionSequence.set_zone z1 s);
  Ok (blocks1, s1).

(** [InstructionSequence::EndBlock(block)] *)
Definition EndBlock (block : BasicBlockPtr) (blocks : list BasicBlock.t)
                    (s : InstructionSequence.t) : outcome (list BasicBlock.t) :=
  let end_ := static_cast_int (length (InstructionSequence.instructions_ s)) in
  do b <- deref blocks block;
  do _ <- DCHECK ((BasicBlock.code_start_ b >=? 0) && (BasicBlock.code_start_ b <? end_));
  Ok (<[block := set_code_end end_ b]> blocks).


(** [AddInstruction] called for the instructions of [instrs], in that
    order; the indices it returned, in the order of the calls. *)
Fixpoint AddInstructions (instrs : list InstructionPtr) (block : BasicBlockPtr)
                         (s : InstructionSequence.t)
  : outcome (list Z * InstructionSequence.t) :=
  match instrs with
  | [] => Ok ([], s)
  | instr :: rest =>
      do (index, s1) <- InstructionSequence.AddInstruction instr block s;
      do (indices, s2) <- AddInstructions rest block s1;
      Ok (index :: indices, s2)
  end.

(** The instruction behind pointer [p] is a block start. *)
Definition points_to_block_start (z : Zone.t) (p : InstructionPtr) : bool :=
  match Zone.instructions z !! p with
  | Some instr => Instruction.IsBlockStart instr
  | None => false
  end.

(** Zone [z'] is zone [z] some calls later: an instruction of [z] is still
    at its address, either as it was or, if it needed a pointer map and had
    none, with a pointer map attached. *)
Definition zone_grown (z z' : Zone.t) : Prop :=
  forall p i, Zone.instructions z !! p = Some i ->
    exists i', Zone.instructions z' !! p = Some i'
               /\ (i' = i
                   \/ (Instruction.NeedsPointerMap i = true
                       /\ Instruction.pointer_map i = None
                       /\ exists pm, i' = Instruction.set_pointer_map pm i)).

(** The instructions of [instrs] can be added one after the other to a
    sequence in zone [z]: each is an instruction of the zone, and one that
    needs a pointer map has none yet and is not added a second time. *)
Fixpoint addable (z : Zone.t) (instrs : list InstructionPtr) : Prop :=
  match instrs with
  | [] => True
  | instr :: rest =>
      (exists i, Zone.instructions z !! instr = Some i
                 /\ (Instruction.NeedsPointerMap i = true ->
                     Instruction.pointer_map i = None /\ instr ∉ rest))
      /\ addable z rest
  end.

(** The pointer maps of the sequence mirror those of its instructions: the
    [k]-th entry of [pointer_maps_] has an instruction position, at that
    index of the sequence there is an instruction that needs a pointer map,
    and the map attached to it is this one. *)
Definition pointer_maps_mirrored (s : InstructionSequence.t) : Prop :=
  forall k pm_ptr, InstructionSequence.pointer_maps_ s !! k = Some pm_ptr ->
    exists pm index instr_ptr instr,
      Zone.pointer_maps (InstructionSequence.zone s) !! pm_ptr = Some pm
      /\ PointerMap.instruction_position_ pm = Some index
      /\ 0 <= index
      /\ InstructionSequence.instructions_ s !! Z.to_nat index = Some instr_ptr
      /\ Zone.instructions (InstructionSequence.zone s) !! instr_ptr = Some instr
      /\ Instruction.NeedsPointerMap instr = true
      /\ Instruction.pointer_map instr = Some pm_ptr.

(** The instruction positions of the pointer maps of the sequence, in the
    order of [pointer_maps_]. *)
Definition pointer_map_positions (s : InstructionSequence.t) : list (option Z) :=
  map (fun pm_ptr =>
         match Zone.pointer_maps (InstructionSequence.zone s) !! pm_ptr with
         | Some pm => PointerMap.instruction_position_ pm
         | None => None
         end)
      (InstructionSequence.pointer_maps_ s).

(** The instruction positions grow along [pointer_maps_]. *)
Definition positions_increasing (s : InstructionSequence.t) : Prop :=
  forall k1 k2 i1 i2, (k1 < k2)%nat ->
    pointer_map_positions s !! k1 = Some (Some i1) ->
    pointer_map_positions s !! k2 = Some (Some i2) ->
    i1 < i2.

(** ** Reference and double virtual registers *)

Module VirtualRegisterSets.

(** The members [doubles_] and [references_] of the sequence, two
    [std::set<int>]; [IsReference], [IsDouble], [MarkAsReference] and
    [MarkAsDouble] read and write nothing else of it. *)
Record t : Type := Build {
  doubles_ : gset Z;
  references_ : gset Z
}.

(** The constructor of the sequence leaves both sets empty. *)
Definition New : t := Build ∅ ∅.

(** [references_.find(virtual_register) != references_.end()] *)
Definition IsReference (virtual_register : Z) (v : t) : bool :=
  bool_decide (virtual_register ∈ references_ v).

Definition IsDouble (virtual_register : Z) (v : t) : bool :=
  bool_decide (virtual_register ∈ doubles_ v).

(** [references_.insert(virtual_register)] *)
Definition MarkAsReference (virtual_register : Z) (v : t) : t :=
  Build (doubles_ v) ({[virtual_register]} ∪ references_ v).

Definition MarkAsDouble (virtual_register : Z) (v : t) : t :=
  Build ({[virtual_register]} ∪ doubles_ v) (references_ v).

End VirtualRegisterSets.

(** The two marking calls, and a run of them. *)
Inductive MarkCall : Set :=
| CallMarkAsReference (virtual_register : Z)
| CallMarkAsDouble (virtual_register : Z).

Definition mark_call (c : MarkCall) (v : VirtualRegisterSets.t) : VirtualRegisterSets.t :=
  match c with
  | CallMarkAsReference r => VirtualRegisterSets.MarkAsReference r v
  | CallMarkAsDouble r => VirtualRegisterSets.MarkAsDouble r v
  end.

Definition mark_calls (cs : list MarkCall) (v : VirtualRegisterSets.t)
  : VirtualRegisterSets.t :=
  fold_left (fun v c => mark_call c v) cs v.

(** ** Block ids *)

Module BasicBlockId.

(** [class BasicBlock::Id] ([schedule.h]) wraps a [size_t]; a [size_t] has
    [size_bits] bits, and a conversion to it is taken modulo [2 ^ size_bits]. *)
Record t : Set := Build { index_ : Z }.

Definition static_cast_size_t (size_bits : Z) (v : Z) : Z := v mod 2 ^ size_bits.

(** [int ToInt() const { return static_cast<int>(index_); }] *)
Definition ToInt (id : t) : Z := wrap_int (index_ id).

(** [size_t ToSize() const { return index_; }] *)
Definition ToSize (id : t) : Z := index_ id.

(** [static Id FromSize(size_t index) { return Id(index); }] *)
Definition FromSize (index : Z) : t := Build index.

(** [static Id FromInt(int index) { return Id(static_cast<size_t>(index)); }] *)
Definition FromInt (size_bits : Z) (index : Z) : t :=
  Build (static_cast_size_t size_bits index).

End BasicBlockId.

(** ** Hashing ([src/base/functional.h]) *)

(** [hash_value(T* const& v)]: with [x] the bits of the pointer,
    [(x >> 3) + x] in [size_t] arithmetic. *)
Definition hash_value_pointer (size_bits : Z) (x : Z) : Z :=
  (Z.shiftr x 3 + x) mod 2 ^ size_bits.

(** ** Printing parallel moves *)

Section Printing.

(** The text that [operator<<] writes for an operand.  It depends on the
    register names of the target, which are not part of these sources. *)
Variable print_operand : Operand -> string.

(** [operator<<(std::ostream&, const MoveOperands&)]; the stream is the
    text written so far. *)
Definition print_MoveOperands (os : string) (mo : MoveOperands.t) : string :=
  let os1 := os +:+ print_operand (MoveOperands.destination mo) in
  let os2 :=
    if negb (Equals (MoveOperands.source mo) (MoveOperands.destination mo))
    then os1 +:+ " = " +:+ print_operand (MoveOperands.source mo)
    else os1 in
  os2 +:+ ";".

(** The loop of [operator<<(std::ostream&, const ParallelMove&)]:
<<
    bool first = true;
    for (move = begin; move != end; ++move) {
      if (move->IsEliminated()) continue;
      if (!first) os << " ";
      first = false;
      os << *move;
    }
>> *)
Fixpoint print_ParallelMove_loop (first : bool) (moves : list MoveOperands.t)
                                 (os : string) : string :=
  match moves with
  | [] => os
  | move :: rest =>
      if MoveOperands.IsEliminated move then print_ParallelMove_loop first rest os
      else
        let os1 := if negb first then os +:+ " " else os in
        print_ParallelMove_loop false rest (print_MoveOperands os1 move)
  end.

Definition print_ParallelMove (os : string) (pm : ParallelMove.t) : string :=
  print_ParallelMove_loop true (ParallelMove.move_operands_ pm) os.

End Printing.

(** A stand-in for the operand printer, for examples: registers print as
    [rN] with a one-digit [N], everything else as [?]. *)
Definition sample_print_operand (op : Operand) : string :=
  match op with
  | Register 0 => "r0"
  | Register 1 => "r1"
  | Register 2 => "r2"
  | _ => "?"
  end.

(** * Properties *)

(** ** Operands *)

Lemma Equals_eq (a b : Operand) : Equals a b = true <-> a = b.
Proof. unfold Equals. apply bool_decide_eq_true. Qed.

Lemma Equals_neq (a b : Operand) : Equals a b = false <-> a <> b.
Proof. unfold Equals. apply bool_decide_eq_false. Qed.

Lemma IsArgument_true (op : Operand) :
  PointerMap.IsArgument op = true <-> negative_stack_slot op.
Proof.
  unfold PointerMap.IsArgument, negative_stack_slot. split.
  - destruct op; simpl; try discriminate.
    intros H. apply Z.ltb_lt in H. eauto.
  - intros (i & -> & Hi). simpl. now apply Z.ltb_lt.
Qed.

Lemma IsArgument_false (op : Operand) :
  PointerMap.IsArgument op = false <-> ~ negative_stack_slot op.
Proof.
  rewrite <- IsArgument_true. destruct (PointerMap.IsArgument op); intuition congruence.
Qed.

Lemma NotDouble_true (op : Operand) :
  PointerMap.NotDouble op = true <-> ~ double_typed op.
Proof.
  unfold PointerMap.NotDouble, double_typed. split.
  - intros H (i & [-> | ->]); discriminate.
  - intros H. destruct op; simpl; try reflexivity; exfalso; apply H; eauto.
Qed.

Lemma NotDouble_false (op : Operand) :
  PointerMap.NotDouble op = false <-> double_typed op.
Proof.
  unfold PointerMap.NotDouble, double_typed. split.
  - destruct op; simpl; try discriminate; eauto.
  - intros (i & [-> | ->]); reflexivity.
Qed.

(** ** Parallel moves *)

Lemma MoveOperands_IsRedundant_true (m : MoveOperands.t) :
  MoveOperands.IsRedundant m = true <->
  (MoveOperands.IsEliminated m = false ->
   MoveOperands.source m = MoveOperands.destination m).
Proof.
  unfold MoveOperands.IsRedundant.
  destruct (MoveOperands.IsEliminated m); simpl.
  - split; [discriminate | reflexivity].
  - rewrite Equals_eq. tauto.
Qed.

Lemma IsRedundant_loop_true (moves : list MoveOperands.t) :
  ParallelMove.IsRedundant_loop moves = true <->
  Forall (fun m => MoveOperands.IsRedundant m = true) moves.
Proof.
  induction moves as [| m moves IH]; simpl.
  - split; auto.
  - destruct (MoveOperands.IsRedundant m) eqn:Hm; simpl.
    + rewrite IH. split; [auto | now inversion 1].
    + split; [discriminate |]. inversion 1; congruence.
Qed.

(** C6. [pm.IsRedundant()] is true iff every move of [pm] that is not
    eliminated has its source equal to its destination; it is false as soon
    as one such move has a source that differs from its destination, and
    true when [pm] holds no move. *)
Theorem ParallelMove_IsRedundant_iff (pm : ParallelMove.t) :
  (ParallelMove.IsRedundant pm = true <->
   forall m, In m (ParallelMove.move_operands_ pm) ->
             MoveOperands.IsEliminated m = false ->
             MoveOperands.source m = MoveOperands.destination m)
  /\ ((exists m, In m (ParallelMove.move_operands_ pm)
                 /\ MoveOperands.IsEliminated m = false
                 /\ MoveOperands.source m <> MoveOperands.destination m) ->
      ParallelMove.IsRedundant pm = false)
  /\ (ParallelMove.move_operands_ pm = [] -> ParallelMove.IsRedundant pm = true).
Proof.
  assert (Hiff : ParallelMove.IsRedundant pm = true <->
                 forall m, In m (ParallelMove.move_operands_ pm) ->
                           MoveOperands.IsEliminated m = false ->
                           MoveOperands.source m = MoveOperands.destination m).
  { unfold ParallelMove.IsRedundant.
    rewrite IsRedundant_loop_true, List.Forall_forall.
    split; intros H m Hin; specialize (H m Hin);
      now apply MoveOperands_IsRedundant_true. }
  split; [exact Hiff |]. split.
  - intros (m & Hin & Hel & Hne).
    destruct (ParallelMove.IsRedundant pm) eqn:E; [| reflexivity].
    exfalso. apply Hne. destruct Hiff as [Hiff _]. now apply (Hiff eq_refl m).
  - intros Hnil. unfold ParallelMove.IsRedundant. now rewrite Hnil.
Qed.

(** ** Pointer maps *)

Lemma without_cons_eq (op : Operand) (l : list Operand) :
  without op (op :: l) = without op l.
Proof. unfold without. now rewrite filter_cons_False by tauto. Qed.

Lemma without_cons_ne (op e : Operand) (l : list Operand) :
  e <> op -> without op (e :: l) = e :: without op l.
Proof. intros H. unfold without. now rewrite filter_cons_True. Qed.

Lemma without_elem (op e : Operand) (l : list Operand) :
  In e (without op l) <-> In e l /\ e <> op.
Proof.
  unfold without. rewrite <- !list_elem_of_In, list_elem_of_filter. tauto.
Qed.

(** What the loop of [RemovePointer] computes from index [i] on: the
    entries before [i] stay, and of the others those that differ from [op]. *)
Lemma RemovePointer_loop_spec (op : Operand) (i : nat) (ops : list Operand) :
  PointerMap.RemovePointer_loop op i ops = take i ops ++ without op (drop i ops).
Proof.
  funelim (PointerMap.RemovePointer_loop op i ops).
  - (* [i] is past the end *)
    match goal with Hn : _ = None |- _ =>
      pose proof (proj1 (lookup_ge_None _ _) Hn) end.
    rewrite take_ge, drop_ge by lia. now rewrite app_nil_r.
  - (* the entry at [i] equals [op]: it is removed and [i] is looked at again *)
    match goal with IH : _ = take _ _ ++ _ |- _ => rewrite IH end.
    match goal with He : Equals _ _ = true |- _ => apply Equals_eq in He; subst end.
    match goal with Hi : _ = Some _ |- _ =>
      pose proof (lookup_lt_Some _ _ _ Hi); rewrite (drop_S _ _ _ Hi) end.
    rewrite without_cons_eq, delete_take_drop.
    rewrite take_app_length', drop_app_length'
      by (rewrite length_take_le; lia).
    reflexivity.
  - match goal with IH : _ = take _ _ ++ _ |- _ => rewrite IH end.
    match goal with He : Equals _ _ = false |- _ => apply Equals_neq in He end.
    match goal with Hi : _ = Some _ |- _ =>
      rewrite (take_S_r _ _ _ Hi), (drop_S _ _ _ Hi) end.
    rewrite without_cons_ne by assumption.
    now rewrite <- app_assoc.
Qed.

Lemma RemovePointer_loop_without (op : Operand) (ops : list Operand) :
  PointerMap.RemovePointer_loop op 0 ops = without op ops.
Proof. now rewrite RemovePointer_loop_spec. Qed.

Lemma set_pointer_operands_same (pm : PointerMap.t) :
  PointerMap.set_pointer_operands (PointerMap.pointer_operands_ pm) pm = pm.
Proof. now destruct pm. Qed.

Lemma set_untagged_operands_same (pm : PointerMap.t) :
  PointerMap.set_untagged_operands (PointerMap.untagged_operands_ pm) pm = pm.
Proof. now destruct pm. Qed.

Lemma RecordPointer_argument (op : Operand) (pm : PointerMap.t) :
  negative_stack_slot op -> PointerMap.RecordPointer op pm = Ok pm.
Proof.
  intros H. apply IsArgument_true in H.
  unfold PointerMap.RecordPointer. now rewrite H.
Qed.

Lemma RecordUntagged_argument (op : Operand) (pm : PointerMap.t) :
  negative_stack_slot op -> PointerMap.RecordUntagged op pm = Ok pm.
Proof.
  intros H. apply IsArgument_true in H.
  unfold PointerMap.RecordUntagged. now rewrite H.
Qed.

Lemma RecordPointer_append (op : Operand) (pm : PointerMap.t) :
  ~ negative_stack_slot op -> ~ double_typed op ->
  PointerMap.RecordPointer op pm
  = Ok (PointerMap.set_pointer_operands (PointerMap.pointer_operands_ pm ++ [op]) pm).
Proof.
  intros Ha Hd. apply IsArgument_false in Ha. apply NotDouble_true in Hd.
  unfold PointerMap.RecordPointer. now rewrite Ha, Hd.
Qed.

Lemma RecordUntagged_append (op : Operand) (pm : PointerMap.t) :
  ~ negative_stack_slot op -> ~ double_typed op ->
  PointerMap.RecordUntagged op pm
  = Ok (PointerMap.set_untagged_operands (PointerMap.untagged_operands_ pm ++ [op]) pm).
Proof.
  intros Ha Hd. apply IsArgument_false in Ha. apply NotDouble_true in Hd.
  unfold PointerMap.RecordUntagged. now rewrite Ha, Hd.
Qed.

Lemma RecordPointer_times (op : Operand) (k : nat) (pm : PointerMap.t) :
  ~ negative_stack_slot op -> ~ double_typed op ->
  call_times k (PointerMap.RecordPointer op) pm
  = Ok (PointerMap.set_pointer_operands
          (PointerMap.pointer_operands_ pm ++ repeat op k) pm).
Proof.
  intros Ha Hd. revert pm. induction k as [| k IH]; intros pm; simpl.
  - now rewrite app_nil_r, set_pointer_operands_same.
  - rewrite RecordPointer_append by assumption. simpl. rewrite IH.
    destruct pm; simpl. unfold PointerMap.set_pointer_operands; simpl.
    now rewrite <- app_assoc.
Qed.

Lemma RecordUntagged_times (op : Operand) (k : nat) (pm : PointerMap.t) :
  ~ negative_stack_slot op -> ~ double_typed op ->
  call_times k (PointerMap.RecordUntagged op) pm
  = Ok (PointerMap.set_untagged_operands
          (PointerMap.untagged_operands_ pm ++ repeat op k) pm).
Proof.
  intros Ha Hd. revert pm. induction k as [| k IH]; intros pm; simpl.
  - now rewrite app_nil_r, set_untagged_operands_same.
  - rewrite RecordUntagged_append by assumption. simpl. rewrite IH.
    destruct pm; simpl. unfold PointerMap.set_untagged_operands; simpl.
    now rewrite <- app_assoc.
Qed.

(** C3. For a stack slot with negative index, [RecordPointer] and
    [RecordUntagged] return the pointer map as it was.  For any other
    operand that is not double-typed, a call puts exactly one new entry at
    the end of its operand list (the rest of the map stays), so [k] calls
    with the same operand put [k] entries there. *)
Theorem Record_argument_unchanged_else_one_entry (op : Operand) (pm : PointerMap.t) :
  (negative_stack_slot op ->
   PointerMap.RecordPointer op pm = Ok pm
   /\ PointerMap.RecordUntagged op pm = Ok pm)
  /\ (~ negative_stack_slot op -> ~ double_typed op ->
      PointerMap.RecordPointer op pm
      = Ok (PointerMap.set_pointer_operands
              (PointerMap.pointer_operands_ pm ++ [op]) pm)
      /\ PointerMap.RecordUntagged op pm
         = Ok (PointerMap.set_untagged_operands
                 (PointerMap.untagged_operands_ pm ++ [op]) pm)
      /\ forall k : nat,
          call_times k (PointerMap.RecordPointer op) pm
          = Ok (PointerMap.set_pointer_operands
                  (PointerMap.pointer_operands_ pm ++ repeat op k) pm)
          /\ call_times k (PointerMap.RecordUntagged op) pm
             = Ok (PointerMap.set_untagged_operands
                     (PointerMap.untagged_operands_ pm ++ repeat op k) pm)).
Proof.
  split.
  - intros H. split.
    + now apply RecordPointer_argument.
    + now apply RecordUntagged_argument.
  - intros Ha Hd. repeat split.
    + now apply RecordPointer_append.
    + now apply RecordUntagged_append.
    + now apply RecordPointer_times.
    + now apply RecordUntagged_times.
Qed.

Lemma Register_not_argument (r : Z) : ~ negative_stack_slot (Register r).
Proof. intros (i & H & _). discriminate. Qed.

Lemma Register_not_double (r : Z) : ~ double_typed (Register r).
Proof. intros (i & [H | H]); discriminate. Qed.

Lemma argument_slot_minus_one : negative_stack_slot (StackSlot (-1)).
Proof. exists (-1). split; [reflexivity | lia]. Qed.

Lemma Record_argument_unchanged_else_one_entry_witness :
  PointerMap.RecordPointer (StackSlot (-1)) PointerMap.New = Ok PointerMap.New
  /\ call_times 3 (PointerMap.RecordPointer (Register 2)) PointerMap.New
     = Ok (PointerMap.Build [Register 2; Register 2; Register 2] [] None).
Proof.
  split.
  - apply (Record_argument_unchanged_else_one_entry (StackSlot (-1)) PointerMap.New).
    apply argument_slot_minus_one.
  - apply (proj2 (Record_argument_unchanged_else_one_entry (Register 2) PointerMap.New)
                  (Register_not_argument 2) (Register_not_double 2)).
Defined.

Lemma pointer_operands_ok_New : pointer_operands_ok PointerMap.New.
Proof. intros op []. Qed.

Lemma RecordPointer_ok (op : Operand) (pm pm' : PointerMap.t) :
  pointer_operands_ok pm ->
  PointerMap.RecordPointer op pm = Ok pm' ->
  pointer_operands_ok pm'.
Proof.
  unfold PointerMap.RecordPointer. intros Hok.
  destruct (PointerMap.IsArgument op) eqn:Ha.
  - now intros [= <-].
  - destruct (PointerMap.NotDouble op) eqn:Hd; simpl; [| discriminate].
    intros [= <-] e He. simpl in He. apply in_app_or in He.
    destruct He as [He | [<- | []]].
    + now apply Hok.
    + split; [now apply NotDouble_true | now apply IsArgument_false].
Qed.

Lemma RecordUntagged_ok (op : Operand) (pm pm' : PointerMap.t) :
  pointer_operands_ok pm ->
  PointerMap.RecordUntagged op pm = Ok pm' ->
  pointer_operands_ok pm'.
Proof.
  unfold PointerMap.RecordUntagged. intros Hok.
  destruct (PointerMap.IsArgument op).
  - now intros [= <-].
  - destruct (PointerMap.NotDouble op); simpl; [| discriminate].
    intros [= <-]. exact Hok.
Qed.

Lemma RemovePointer_ok (op : Operand) (pm pm' : PointerMap.t) :
  pointer_operands_ok pm ->
  PointerMap.RemovePointer op pm = Ok pm' ->
  pointer_operands_ok pm'.
Proof.
  unfold PointerMap.RemovePointer. intros Hok.
  destruct (PointerMap.IsArgument op).
  - now intros [= <-].
  - destruct (PointerMap.NotDouble op); simpl; [| discriminate].
    intros [= <-] e He. simpl in He.
    rewrite RemovePointer_loop_without in He.
    apply without_elem in He. now apply Hok.
Qed.

Lemma pointer_map_calls_ok (cs : list PointerMapCall) (pm pm' : PointerMap.t) :
  pointer_operands_ok pm ->
  pointer_map_calls cs pm = Ok pm' ->
  pointer_operands_ok pm'.
Proof.
  revert pm. induction cs as [| c cs IH]; intros pm Hok; simpl.
  - now intros [= <-].
  - destruct (pointer_map_call c pm) as [pm1 | |] eqn:Hc; simpl; try discriminate.
    apply IH. destruct c; simpl in Hc.
    + eapply RecordPointer_ok; eauto.
    + eapply RecordUntagged_ok; eauto.
    + eapply RemovePointer_ok; eauto.
Qed.

(** C4. Whatever calls of [RecordPointer], [RecordUntagged] and
    [RemovePointer] are made on a new pointer map, if none of them fails an
    assertion then the pointer-operand list of the map they lead to holds no
    double-typed operand and no stack slot with negative index. *)
Theorem pointer_operands_never_double_nor_argument
    (cs : list PointerMapCall) (pm : PointerMap.t) :
  pointer_map_calls cs PointerMap.New = Ok pm ->
  forall op, In op (PointerMap.pointer_operands_ pm) ->
             ~ double_typed op /\ ~ negative_stack_slot op.
Proof.
  intros Hrun. exact (pointer_map_calls_ok cs _ _ pointer_operands_ok_New Hrun).
Qed.

Lemma pointer_operands_never_double_nor_argument_witness :
  let cs := [CallRecordPointer (Register 1); CallRecordPointer (StackSlot (-1));
             CallRecordUntagged (StackSlot 3); CallRecordPointer (StackSlot 2);
             CallRemovePointer (Register 1)] in
  pointer_map_calls cs PointerMap.New
  = Ok (PointerMap.Build [StackSlot 2] [StackSlot 3] None)
  /\ forall op, In op [StackSlot 2] -> ~ double_typed op /\ ~ negative_stack_slot op.
Proof.
  split.
  - reflexivity.
  - apply (pointer_operands_never_double_nor_argument
             [CallRecordPointer (Register 1); CallRecordPointer (StackSlot (-1));
              CallRecordUntagged (StackSlot 3); CallRecordPointer (StackSlot 2);
              CallRemovePointer (Register 1)]
             (PointerMap.Build [StackSlot 2] [StackSlot 3] None)).
    reflexivity.
Defined.

(** A double-typed operand is turned away by the assertion of each of the
    three calls. *)
Lemma double_operand_fails_assertion (op : Operand) (pm : PointerMap.t) :
  double_typed op ->
  PointerMap.RecordPointer op pm = AssertionFailed
  /\ PointerMap.RecordUntagged op pm = AssertionFailed
  /\ PointerMap.RemovePointer op pm = AssertionFailed.
Proof.
  intros Hd.
  assert (Ha : PointerMap.IsArgument op = false)
    by (destruct Hd as (i & [-> | ->]); reflexivity).
  apply NotDouble_false in Hd.
  unfold PointerMap.RecordPointer, PointerMap.RecordUntagged, PointerMap.RemovePointer.
  now rewrite Ha, Hd.
Qed.

Lemma without_absent (op : Operand) (l : list Operand) :
  ~ In op l -> without op l = l.
Proof.
  induction l as [| e l IH]; intros Hnot; [reflexivity |].
  rewrite without_cons_ne.
  - rewrite IH; [reflexivity |]. intros Hin. apply Hnot. now right.
  - intros ->. apply Hnot. now left.
Qed.

(** C5, as the code has it.  [RemovePointer(op)] with an operand that is
    neither double-typed nor a stack slot with negative index removes every
    entry equal to [op] and keeps the other entries in their order.  With a
    stack slot of negative index it returns at once and the map stays as it
    was; on a map that holds no such slot, as every map built by the three
    calls does, that is all there is to remove.  With a double-typed operand
    it fails its assertion. *)
Theorem RemovePointer_removes_all_unless_guarded (op : Operand) (pm : PointerMap.t) :
  (~ negative_stack_slot op -> ~ double_typed op ->
   PointerMap.RemovePointer op pm
   = Ok (PointerMap.set_pointer_operands
           (without op (PointerMap.pointer_operands_ pm)) pm))
  /\ (negative_stack_slot op ->
      PointerMap.RemovePointer op pm = Ok pm
      /\ (pointer_operands_ok pm -> removes_every_equal_entry op pm))
  /\ (double_typed op -> PointerMap.RemovePointer op pm = AssertionFailed).
Proof.
  split; [| split].
  - intros Ha Hd. apply IsArgument_false in Ha. apply NotDouble_true in Hd.
    unfold PointerMap.RemovePointer. rewrite Ha, Hd. simpl.
    now rewrite RemovePointer_loop_without.
  - intros Ha.
    assert (Hsame : PointerMap.RemovePointer op pm = Ok pm).
    { apply IsArgument_true in Ha. unfold PointerMap.RemovePointer. now rewrite Ha. }
    split; [exact Hsame |]. intros Hok.
    unfold removes_every_equal_entry. rewrite Hsame, without_absent.
    + now rewrite set_pointer_operands_same.
    + intros Hin. now apply (Hok op Hin).
  - intros Hd. now apply double_operand_fails_assertion.
Qed.

Lemma RemovePointer_removes_all_unless_guarded_witness :
  PointerMap.RemovePointer (Register 1)
    (PointerMap.Build [Register 1; StackSlot 0; Register 1; Register 2; Register 1]
                      [] (Some 4))
  = Ok (PointerMap.Build [StackSlot 0; Register 2] [] (Some 4)).
Proof.
  apply (proj1 (RemovePointer_removes_all_unless_guarded (Register 1)
                  (PointerMap.Build
                     [Register 1; StackSlot 0; Register 1; Register 2; Register 1]
                     [] (Some 4)))
               (Register_not_argument 1) (Register_not_double 1)).
Defined.

(** C5, for every operand, fails.  [RemovePointer] of the argument slot
    [[stack:-1]] returns before its loop and leaves an equal entry where it
    is; [RemovePointer] of a double register stops at the assertion. *)
Lemma RemovePointer_guarded_operands_not_removed :
  (PointerMap.RemovePointer (StackSlot (-1))
     (PointerMap.Build [StackSlot (-1); Register 0] [] None)
   = Ok (PointerMap.Build [StackSlot (-1); Register 0] [] None)
   /\ ~ removes_every_equal_entry (StackSlot (-1))
          (PointerMap.Build [StackSlot (-1); Register 0] [] None))
  /\ (PointerMap.RemovePointer (DoubleRegister 0) (PointerMap.Build [Register 0] [] None)
      = AssertionFailed
      /\ ~ removes_every_equal_entry (DoubleRegister 0)
             (PointerMap.Build [Register 0] [] None)).
Proof.
  split; (split; [reflexivity |]);
    unfold removes_every_equal_entry; vm_compute; discriminate.
Qed.

(** ** Machine integers *)

Lemma wrap_int_small (z : Z) : kMinInt <= z <= kMaxInt -> wrap_int z = z.
Proof.
  unfold kMinInt, kMaxInt, wrap_int. intros H.
  rewrite Z.mod_small by lia. lia.
Qed.

Lemma static_cast_int_small (n : nat) :
  Z.of_nat n <= kMaxInt -> static_cast_int n = Z.of_nat n.
Proof.
  intros H. unfold static_cast_int. apply wrap_int_small.
  unfold kMinInt. lia.
Qed.

(** ** Adding instructions *)

Section AddInstruction.

Import InstructionSequence.

Variable s : InstructionSequence.t.
Variable instr : InstructionPtr.
Variable block : BasicBlockPtr.
Variable i : Instruction.t.
Hypothesis Hinstr : Zone.instructions (zone s) !! instr = Some i.

(** The address of the gap that the call allocates. *)
Let gap : InstructionPtr := length (Zone.instructions (zone s)).

(** The index that the call returns. *)
Let index : Z :=
  static_cast_int
    (length (if Instruction.IsControl i then instructions_ s ++ [gap]
             else instructions_ s)).

(** The instruction list after the call. *)
Let added : list InstructionPtr :=
  instructions_ s
  ++ (if Instruction.IsControl i then [gap; instr] else [instr; gap]).

Lemma AddInstruction_plain :
  Instruction.NeedsPointerMap i = false ->
  AddInstruction instr block s
  = Ok (index,
        set_instructions added
          (set_zone (Zone.Build (Zone.instructions (zone s) ++ [GapInstruction.New])
                                (Zone.pointer_maps (zone s))) s)).
Proof.
  intros Hn. unfold AddInstruction, deref. rewrite Hinstr. simpl.
  rewrite Hn. subst index added gap.
  destruct (Instruction.IsControl i); simpl; now rewrite <- ?app_assoc.
Qed.

Lemma AddInstruction_with_map :
  Instruction.NeedsPointerMap i = true ->
  Instruction.pointer_map i = None ->
  AddInstruction instr block s
  = Ok (index,
        set_pointer_maps (pointer_maps_ s ++ [length (Zone.pointer_maps (zone s))])
          (set_zone
             (Zone.Build
                (<[instr := Instruction.set_pointer_map
                              (length (Zone.pointer_maps (zone s))) i]>
                   (Zone.instructions (zone s) ++ [GapInstruction.New]))
                (Zone.pointer_maps (zone s)
                 ++ [PointerMap.Build [] [] (Some index)]))
             (set_instructions added s))).
Proof.
  intros Hn Hp. unfold AddInstruction, deref. rewrite Hinstr. simpl.
  rewrite Hn, Hp. subst index added gap.
  destruct (Instruction.IsControl i); simpl; now rewrite <- ?app_assoc.
Qed.

Lemma AddInstruction_map_attached :
  Instruction.NeedsPointerMap i = true ->
  Instruction.pointer_map i <> None ->
  AddInstruction instr block s = AssertionFailed.
Proof.
  intros Hn Hp. unfold AddInstruction, deref. rewrite Hinstr. simpl.
  rewrite Hn. rewrite bool_decide_eq_false_2 by exact Hp. reflexivity.
Qed.

End AddInstruction.

(** C1. [AddInstruction(instr, block)] on a sequence that holds [n]
    instructions: when [instr] is not a control instruction the list grows
    by [instr] at index [n] and a gap at index [n + 1], and the call returns
    [n]; when it is one, the list grows by a gap at index [n] and [instr] at
    index [n + 1], and the call returns [n + 1].  The gap is a new object of
    the zone and has no moves; the index returned is where [instr] is; what
    was stored below [n] is where it was. *)
Theorem AddInstruction_gap_placement
    (s : InstructionSequence.t) (instr : InstructionPtr) (block : BasicBlockPtr)
    (i : Instruction.t) :
  Zone.instructions (InstructionSequence.zone s) !! instr = Some i ->
  (Instruction.NeedsPointerMap i = true -> Instruction.pointer_map i = None) ->
  Z.of_nat (length (InstructionSequence.instructions_ s)) + 1 <= kMaxInt ->
  let n := length (InstructionSequence.instructions_ s) in
  let gap := length (Zone.instructions (InstructionSequence.zone s)) in
  let index := if Instruction.IsControl i then Z.of_nat n + 1 else Z.of_nat n in
  exists s',
    InstructionSequence.AddInstruction instr block s = Ok (index, s')
    /\ InstructionSequence.instructions_ s'
       = InstructionSequence.instructions_ s
         ++ (if Instruction.IsControl i then [gap; instr] else [instr; gap])
    /\ Zone.instructions (InstructionSequence.zone s) !! gap = None
    /\ Zone.instructions (InstructionSequence.zone s') !! gap = Some GapInstruction.New
    /\ InstructionSequence.instructions_ s' !! Z.to_nat index = Some instr
    /\ forall j, (j < n)%nat ->
         InstructionSequence.instructions_ s' !! j
         = InstructionSequence.instructions_ s !! j.
Proof.
  intros Hinstr Hmap Hsize n gap index.
  pose proof (lookup_lt_Some _ _ _ Hinstr) as Hlt.
  assert (Hindex :
    static_cast_int
      (length (if Instruction.IsControl i
               then InstructionSequence.instructions_ s ++ [gap]
               else InstructionSequence.instructions_ s)) = index).
  { subst index. destruct (Instruction.IsControl i).
    - rewrite length_app. simpl. rewrite static_cast_int_small; lia.
    - rewrite static_cast_int_small; lia. }
  assert (Hat : (InstructionSequence.instructions_ s
                 ++ (if Instruction.IsControl i then [gap; instr] else [instr; gap]))
                !! Z.to_nat index = Some instr).
  { subst index n. destruct (Instruction.IsControl i).
    - replace (Z.to_nat _) with (length (InstructionSequence.instructions_ s) + 1)%nat by lia.
      now rewrite lookup_app_r, Nat.add_comm, Nat.add_sub by lia.
    - rewrite Nat2Z.id. now rewrite lookup_app_r, Nat.sub_diag by lia. }
  assert (Hfresh : Zone.instructions (InstructionSequence.zone s) !! gap = None)
    by (apply lookup_ge_None; subst gap; lia).
  assert (Hgap : (Zone.instructions (InstructionSequence.zone s) ++ [GapInstruction.New])
                 !! gap = Some GapInstruction.New)
    by (subst gap; now rewrite lookup_app_r, Nat.sub_diag by lia).
  destruct (Instruction.NeedsPointerMap i) eqn:Hneeds.
  - eexists. split.
    { rewrite (AddInstruction_with_map s instr block i Hinstr Hneeds (Hmap eq_refl)).
      cbv zeta. fold gap. rewrite Hindex. reflexivity. }
    repeat apply conj.
    + reflexivity.
    + exact Hfresh.
    + simpl. rewrite list_lookup_insert_ne by (subst gap; lia). exact Hgap.
    + exact Hat.
    + intros j Hj. simpl. now rewrite lookup_app_l by lia.
  - eexists. split.
    { rewrite (AddInstruction_plain s instr block i Hinstr Hneeds).
      cbv zeta. fold gap. rewrite Hindex. reflexivity. }
    repeat apply conj.
    + reflexivity.
    + exact Hfresh.
    + exact Hgap.
    + exact Hat.
    + intros j Hj. simpl. now rewrite lookup_app_l by lia.
Qed.

Lemma AddInstruction_gap_placement_witness :
  exists s',
    InstructionSequence.AddInstruction 2 0 sample_sequence = Ok (1, s')
    /\ InstructionSequence.instructions_ s' = [4%nat; 2%nat]
    /\ Zone.instructions sample_zone !! 4%nat = None
    /\ Zone.instructions (InstructionSequence.zone s') !! 4%nat = Some GapInstruction.New
    /\ InstructionSequence.instructions_ s' !! 1%nat = Some 2%nat
    /\ forall j, (j < 0)%nat ->
         InstructionSequence.instructions_ s' !! j = @nil nat !! j.
Proof.
  apply (AddInstruction_gap_placement sample_sequence 2 0 sample_ret).
  - reflexivity.
  - discriminate.
  - vm_compute. discriminate.
Defined.

(** C7. [AddInstruction] of an instruction that needs a pointer map.  When
    none is attached yet, the call makes a new pointer map in the zone, with
    both operand lists empty and the returned index as its instruction
    position, attaches it to the instruction and puts it at the end of the
    sequence's list of pointer maps; after that, a second [AddInstruction]
    of the same instruction fails the assertion.  When a pointer map is
    already attached, the call fails the assertion. *)
Theorem AddInstruction_pointer_map
    (s : InstructionSequence.t) (instr : InstructionPtr) (block : BasicBlockPtr)
    (i : Instruction.t) :
  Zone.instructions (InstructionSequence.zone s) !! instr = Some i ->
  Instruction.NeedsPointerMap i = true ->
  let pm := length (Zone.pointer_maps (InstructionSequence.zone s)) in
  (Instruction.pointer_map i = None ->
   exists index s',
     InstructionSequence.AddInstruction instr block s = Ok (index, s')
     /\ Zone.pointer_maps (InstructionSequence.zone s) !! pm = None
     /\ Zone.pointer_maps (InstructionSequence.zone s') !! pm
        = Some (PointerMap.Build [] [] (Some index))
     /\ (exists i', Zone.instructions (InstructionSequence.zone s') !! instr = Some i'
                    /\ Instruction.pointer_map i' = Some pm)
     /\ InstructionSequence.pointer_maps_ s'
        = InstructionSequence.pointer_maps_ s ++ [pm]
     /\ InstructionSequence.AddInstruction instr block s' = AssertionFailed)
  /\ (Instruction.pointer_map i <> None ->
      InstructionSequence.AddInstruction instr block s = AssertionFailed).
Proof.
  intros Hinstr Hneeds pm. split.
  - intros Hnull.
    pose proof (lookup_lt_Some _ _ _ Hinstr) as Hlt.
    assert (Hattached :
      <[instr := Instruction.set_pointer_map pm i]>
        (Zone.instructions (InstructionSequence.zone s) ++ [GapInstruction.New])
      !! instr = Some (Instruction.set_pointer_map pm i)).
    { apply list_lookup_insert_eq. rewrite length_app. lia. }
    eexists. eexists. split.
    { apply (AddInstruction_with_map s instr block i Hinstr Hneeds Hnull). }
    repeat apply conj.
    + apply lookup_ge_None. subst pm. lia.
    + simpl. subst pm. now rewrite lookup_app_r, Nat.sub_diag by lia.
    + exists (Instruction.set_pointer_map pm i). split; [exact Hattached | reflexivity].
    + reflexivity.
    + eapply AddInstruction_map_attached.
      * exact Hattached.
      * exact Hneeds.
      * discriminate.
  - now apply AddInstruction_map_attached.
Qed.

Lemma AddInstruction_pointer_map_witness :
  exists index s',
    InstructionSequence.AddInstruction 1 0 sample_sequence = Ok (index, s')
    /\ Zone.pointer_maps sample_zone !! 0%nat = None
    /\ Zone.pointer_maps (InstructionSequence.zone s') !! 0%nat
       = Some (PointerMap.Build [] [] (Some index))
    /\ (exists i', Zone.instructions (InstructionSequence.zone s') !! 1%nat = Some i'
                   /\ Instruction.pointer_map i' = Some 0%nat)
    /\ InstructionSequence.pointer_maps_ s' = [0%nat]
    /\ InstructionSequence.AddInstruction 1 0 s' = AssertionFailed.
Proof.
  apply (proj1 (AddInstruction_pointer_map sample_sequence 1 0 sample_call
                  eq_refl eq_refl)).
  reflexivity.
Defined.

(** ** Frame state descriptors *)

Lemma AddFrameStateDescriptors_spec
    (ds : list FrameStateDescriptorPtr) (s : InstructionSequence.t) :
  Z.of_nat (length (InstructionSequence.deoptimization_entries_ s) + length ds)
  <= kMaxInt + 1 ->
  AddFrameStateDescriptors ds s
  = (map (fun k => InstructionSequence.FromInt (Z.of_nat k))
         (seq (length (InstructionSequence.deoptimization_entries_ s)) (length ds)),
     InstructionSequence.set_deoptimization_entries
       (InstructionSequence.deoptimization_entries_ s ++ ds) s).
Proof.
  revert s. induction ds as [| d ds IH]; intros s Hsize.
  - simpl. rewrite app_nil_r. now destruct s.
  - simpl in *. unfold InstructionSequence.AddFrameStateDescriptor.
    rewrite IH; simpl.
    + rewrite static_cast_int_small by lia.
      rewrite length_app, Nat.add_1_r, <- app_assoc. reflexivity.
    + rewrite length_app. simpl. lia.
Qed.

(** C9. On a new sequence, the calls of [AddFrameStateDescriptor] return
    the ids 0, 1, 2, ... in the order of the calls, and
    [GetFrameStateDescriptor] of the id that a call returned is the
    descriptor that was passed to that call. *)
Theorem FrameStateDescriptor_ids_sequential
    (z : Zone.t) (NodeCount : Z) (ds : list FrameStateDescriptorPtr) :
  Z.of_nat (length ds) <= kMaxInt + 1 ->
  exists ids s',
    AddFrameStateDescriptors ds (InstructionSequence.New z NodeCount) = (ids, s')
    /\ length ids = length ds
    /\ (forall k id, ids !! k = Some id -> InstructionSequence.ToInt id = Z.of_nat k)
    /\ (forall k id d, ids !! k = Some id -> ds !! k = Some d ->
          InstructionSequence.GetFrameStateDescriptor id s' = Ok d).
Proof.
  intros Hsize. eexists. eexists. split.
  { apply AddFrameStateDescriptors_spec. simpl. lia. }
  simpl.
  assert (Hid : forall k id,
             map (fun k => InstructionSequence.FromInt (Z.of_nat k)) (seq 0 (length ds))
             !! k = Some id ->
             id = InstructionSequence.FromInt (Z.of_nat k)).
  { intros k id Hk. rewrite list_lookup_fmap in Hk.
    destruct (seq 0 (length ds) !! k) as [k' |] eqn:Hseq; [| discriminate].
    apply lookup_seq in Hseq. destruct Hseq as [-> _]. now injection Hk as <-. }
  repeat apply conj.
  - now rewrite length_map, length_seq.
  - intros k id Hk. now rewrite (Hid k id Hk).
  - intros k id d Hk Hd. rewrite (Hid k id Hk).
    unfold InstructionSequence.GetFrameStateDescriptor, deref. simpl.
    destruct (Z.ltb_spec (Z.of_nat k) 0) as [Hneg | _]; [lia |].
    now rewrite Nat2Z.id, Hd.
Qed.

Lemma FrameStateDescriptor_ids_sequential_witness :
  exists ids s',
    AddFrameStateDescriptors [7%nat; 9%nat; 7%nat] (InstructionSequence.New sample_zone 4)
    = (ids, s')
    /\ length ids = 3%nat
    /\ (forall k id, ids !! k = Some id -> InstructionSequence.ToInt id = Z.of_nat k)
    /\ (forall k id d, ids !! k = Some id -> [7%nat; 9%nat; 7%nat] !! k = Some d ->
          InstructionSequence.GetFrameStateDescriptor id s' = Ok d).
Proof.
  apply (FrameStateDescriptor_ids_sequential sample_zone 4 [7%nat; 9%nat; 7%nat]).
  vm_compute. discriminate.
Defined.

(** ** Loops *)

(** C8. For a loop header [h] (its [loop_end] is at least 0) and any block
    [b], [h.LoopContains(b)] has a value, and that value is [true] iff
    [h.rpo_number <= b.rpo_number < h.loop_end]; so [h] contains itself iff
    [h.rpo_number < h.loop_end]. *)
Theorem LoopContains_iff_rpo_in_range (h b : BasicBlock.t) :
  0 <= BasicBlock.loop_end h ->
  BasicBlock.IsLoopHeader h = true
  /\ (exists r, BasicBlock.LoopContains h b = Some r
                /\ (r = true <->
                    BasicBlock.rpo_number h <= BasicBlock.rpo_number b
                                            < BasicBlock.loop_end h))
  /\ (BasicBlock.LoopContains h h = Some true <->
      BasicBlock.rpo_number h < BasicBlock.loop_end h).
Proof.
  intros Hheader.
  assert (Hh : BasicBlock.IsLoopHeader h = true).
  { unfold BasicBlock.IsLoopHeader, BasicBlock.loop_end in *. now apply Z.geb_le. }
  split; [exact Hh |]. unfold BasicBlock.LoopContains. rewrite Hh. split.
  - eexists. split; [reflexivity |].
    rewrite andb_true_iff, Z.leb_le, Z.ltb_lt. tauto.
  - split.
    + intros [= H]. apply andb_true_iff in H. destruct H as [_ H].
      now apply Z.ltb_lt in H.
    + intros H. f_equal. apply andb_true_iff. split.
      * apply Z.leb_le. lia.
      * now apply Z.ltb_lt.
Qed.

Lemma LoopContains_iff_rpo_in_range_witness :
  BasicBlock.IsLoopHeader (sample_block 2 5) = true
  /\ (exists r, BasicBlock.LoopContains (sample_block 2 5) (sample_block 4 (-1)) = Some r
                /\ (r = true <-> 2 <= 4 < 5))
  /\ (BasicBlock.LoopContains (sample_block 2 5) (sample_block 2 5) = Some true <-> 2 < 5).
Proof.
  apply (LoopContains_iff_rpo_in_range (sample_block 2 5) (sample_block 4 (-1))).
  simpl. lia.
Defined.

(** ** From an instruction index back to its block *)

Section GetBasicBlock.

Import InstructionSequence.

Variable s : InstructionSequence.t.
Hypothesis Hvalid : pointers_valid s.

Lemma GetBasicBlock_negative (idx : Z) :
  idx < 0 -> GetBasicBlock idx s = AssertionFailed.
Proof.
  intros Hneg. funelim (GetBasicBlock idx s); try lia. reflexivity.
Qed.

Lemma InstructionAt_stored (idx : Z) :
  0 <= idx < Z.of_nat (length (instructions_ s)) ->
  exists instr, InstructionAt idx s = Ok instr
                /\ stored_at s (Z.to_nat idx) = Some instr.
Proof.
  intros Hidx. unfold InstructionAt, stored_at, deref.
  replace ((0 <=? idx) && (idx <? Z.of_nat (length (instructions_ s)))) with true
    by (symmetry; apply andb_true_iff; split; [apply Z.leb_le | apply Z.ltb_lt]; lia).
  simpl.
  destruct (instructions_ s !! Z.to_nat idx) as [p |] eqn:Hp.
  - simpl. pose proof (Hvalid _ _ Hp) as Hlt.
    apply lookup_lt_is_Some in Hlt. destruct Hlt as [instr Hinstr].
    exists instr. now rewrite Hinstr.
  - apply lookup_ge_None in Hp. lia.
Qed.

(** One turn of the loop. *)
Lemma GetBasicBlock_step (idx : Z) :
  0 <= idx < Z.of_nat (length (instructions_ s)) ->
  GetBasicBlock idx s
  = match block_start_at s (Z.to_nat idx) with
    | Some b => Ok b
    | None => GetBasicBlock (idx - 1) s
    end.
Proof.
  intros Hidx. destruct (InstructionAt_stored idx Hidx) as (instr & Hat & Hstored).
  unfold block_start_at. rewrite Hstored.
  funelim (GetBasicBlock idx s); try lia; try congruence.
  - (* a block start: the loop returns its block *)
    assert (instruction = instr) as -> by congruence.
    unfold Instruction.block.
    match goal with H : Instruction.IsBlockStart _ = true |- _ =>
      unfold Instruction.IsBlockStart in H end.
    now destruct (Instruction.class instr).
  - (* another instruction: the loop goes one index down *)
    assert (instruction = instr) as -> by congruence.
    match goal with H : Instruction.IsBlockStart _ = false |- _ =>
      unfold Instruction.IsBlockStart in H end.
    destruct (Instruction.class instr); try reflexivity. discriminate.
Qed.

Lemma GetBasicBlock_scan (n : nat) :
  forall idx : Z,
    idx = Z.of_nat n - 1 ->
    idx < Z.of_nat (length (instructions_ s)) ->
    (forall b, GetBasicBlock idx s = Ok b <->
       exists j, 0 <= j <= idx
                 /\ block_start_at s (Z.to_nat j) = Some b
                 /\ forall k, j < k <= idx -> block_start_at s (Z.to_nat k) = None)
    /\ ((forall j, 0 <= j <= idx -> block_start_at s (Z.to_nat j) = None) ->
        GetBasicBlock idx s = AssertionFailed).
Proof.
  induction n as [| n IH]; intros idx -> Hlt.
  - rewrite GetBasicBlock_negative by lia. split.
    + intros b. split; [discriminate |]. intros (j & Hj & _). lia.
    + reflexivity.
  - rewrite GetBasicBlock_step by lia.
    destruct (IH (Z.of_nat (S n) - 1 - 1)) as [IHok IHfail]; [lia | lia |].
    destruct (block_start_at s (Z.to_nat (Z.of_nat (S n) - 1))) as [b0 |] eqn:Hhere.
    + split.
      * intros b. split.
        -- intros [= <-]. exists (Z.of_nat (S n) - 1).
           split; [lia |]. split; [exact Hhere |]. intros k Hk. lia.
        -- intros (j & Hj & Hstart & Hnone).
           destruct (Z.eq_dec j (Z.of_nat (S n) - 1)) as [-> | Hne].
           ++ congruence.
           ++ rewrite Hnone in Hhere by lia. discriminate.
      * intros Hnone. rewrite Hnone in Hhere by lia. discriminate.
    + split.
      * intros b. rewrite IHok. split.
        -- intros (j & Hj & Hstart & Hnone). exists j.
           split; [lia |]. split; [exact Hstart |]. intros k Hk.
           destruct (Z.eq_dec k (Z.of_nat (S n) - 1)) as [-> | Hne];
             [exact Hhere | apply Hnone; lia].
        -- intros (j & Hj & Hstart & Hnone).
           assert (j <> Z.of_nat (S n) - 1) by congruence.
           exists j. split; [lia |]. split; [exact Hstart |].
           intros k Hk. apply Hnone. lia.
      * intros Hnone. apply IHfail. intros j Hj. apply Hnone. lia.
Qed.

End GetBasicBlock.

(** C10. [GetBasicBlock(instruction_index)], for an index below the size of
    the sequence, returns a block exactly when some instruction at an index
    from 0 to [instruction_index] is a block start, and the block it
    returns is the owning block of the nearest such instruction at or below
    [instruction_index]; when there is none the scan walks down past index
    0 and fails the assertion that the index is not negative. *)
Theorem GetBasicBlock_nearest_block_start
    (s : InstructionSequence.t) (instruction_index : Z) :
  pointers_valid s ->
  instruction_index < Z.of_nat (length (InstructionSequence.instructions_ s)) ->
  (forall b,
     InstructionSequence.GetBasicBlock instruction_index s = Ok b <->
     exists j, 0 <= j <= instruction_index
               /\ block_start_at s (Z.to_nat j) = Some b
               /\ forall k, j < k <= instruction_index ->
                            block_start_at s (Z.to_nat k) = None)
  /\ ((forall j, 0 <= j <= instruction_index ->
                 block_start_at s (Z.to_nat j) = None) ->
      InstructionSequence.GetBasicBlock instruction_index s = AssertionFailed).
Proof.
  intros Hvalid Hlt.
  destruct (Z_lt_dec instruction_index 0) as [Hneg | Hpos].
  - rewrite GetBasicBlock_negative by exact Hneg. split.
    + intros b. split; [discriminate |]. intros (j & Hj & _). lia.
    + reflexivity.
  - apply (GetBasicBlock_scan s Hvalid (Z.to_nat (instruction_index + 1))); lia.
Qed.

(** ** Virtual registers *)

Lemma distinct_app_new (ids : list Z) (id : Z) :
  id ∉ ids -> distinct (ids ++ [id]) = S (distinct ids).
Proof.
  intros Hnew. unfold distinct.
  change (S (length (remove_dups ids))) with (length (id :: remove_dups ids)).
  apply Permutation_length, NoDup_Permutation.
  - apply NoDup_remove_dups.
  - apply NoDup_cons. split; [| apply NoDup_remove_dups].
    now rewrite elem_of_remove_dups.
  - intros x. rewrite elem_of_remove_dups, elem_of_app, list_elem_of_singleton.
    rewrite elem_of_cons, elem_of_remove_dups. tauto.
Qed.

Lemma distinct_app_old (ids : list Z) (id : Z) :
  id ∈ ids -> distinct (ids ++ [id]) = distinct ids.
Proof.
  intros Hold. unfold distinct.
  apply Permutation_length, NoDup_Permutation; try apply NoDup_remove_dups.
  intros x. rewrite !elem_of_remove_dups, elem_of_app, list_elem_of_singleton.
  split; [intros [H | ->]; assumption | tauto].
Qed.

(** Distinct nodes of a graph of [NodeCount] nodes are at most [NodeCount]. *)
Lemma distinct_bound (NodeCount : Z) (ids : list Z) :
  0 <= NodeCount ->
  Forall (fun id => 0 <= id < NodeCount) ids ->
  Z.of_nat (distinct ids) <= NodeCount.
Proof.
  intros HN Hrange. unfold distinct.
  assert (Hsub : remove_dups ids ⊆+ seqZ 0 NodeCount).
  { apply NoDup_submseteq; [apply NoDup_remove_dups |].
    intros x Hx. rewrite elem_of_remove_dups in Hx.
    rewrite List.Forall_forall in Hrange. apply list_elem_of_In, Hrange in Hx.
    apply elem_of_seqZ. lia. }
  apply submseteq_length in Hsub. rewrite length_seqZ in Hsub. lia.
Qed.

Lemma vreg_invariant_New (z : Zone.t) (NodeCount : Z) :
  vreg_invariant NodeCount [] (InstructionSequence.New z NodeCount).
Proof.
  unfold vreg_invariant. simpl. repeat apply conj.
  - constructor.
  - apply length_replicate.
  - reflexivity.
  - intros id Hid _. apply lookup_replicate_2. lia.
  - intros id Hin. now apply not_elem_of_nil in Hin.
Qed.

Section GetVirtualRegister.

Import InstructionSequence.

Variable NodeCount : Z.
Hypothesis HNodeCount : 0 <= NodeCount <= kMaxInt.

(** One call, for a node of the graph. *)
Lemma GetVirtualRegister_step (called : list Z) (s : InstructionSequence.t) (id : Z) :
  vreg_invariant NodeCount called s ->
  0 <= id < NodeCount ->
  exists r s1,
    GetVirtualRegister id s = Ok (r, s1)
    /\ vreg_invariant NodeCount (called ++ [id]) s1
    /\ node_map_ s1 !! Z.to_nat id = Some r
    /\ 0 <= r
    /\ (id ∉ called -> r = Z.of_nat (distinct called))
    /\ (forall m v, node_map_ s !! m = Some v -> v <> -1 ->
                    node_map_ s1 !! m = Some v).
Proof.
  intros (Hrange & Hlen & Hnext & Hfree & Hset) Hid.
  assert (Hrange' : Forall (fun id => 0 <= id < NodeCount) (called ++ [id])).
  { apply Forall_app. split; [exact Hrange |]. now constructor. }
  unfold GetVirtualRegister, node_map_at, deref.
  destruct (Z.ltb_spec id 0) as [Hneg | _]; [lia |].
  destruct (decide (id ∈ called)) as [Hold | Hnew].
  - (* the node has its id *)
    destruct (Hset id Hold) as (v & Hv & Hv0). rewrite Hv. simpl.
    destruct (Z.eqb_spec v (-1)) as [Heq | _]; [lia |].
    rewrite Hv. simpl. exists v, s. repeat apply conj; try easy.
    + now rewrite distinct_app_old.
    + intros id' Hid' Hnot. apply Hfree; [exact Hid' |].
      intros Hin. apply Hnot, elem_of_app. now left.
    + intros id' Hin. apply elem_of_app in Hin. destruct Hin as [Hin | Hin].
      * now apply Hset.
      * apply list_elem_of_singleton in Hin. subst id'. eauto.
  - (* the first call for the node *)
    rewrite (Hfree id Hid Hnew). simpl.
    assert (Hlt : (Z.to_nat id < length (node_map_ s))%nat) by lia.
    rewrite list_lookup_insert_eq by exact Hlt. simpl.
    pose proof (distinct_bound NodeCount (called ++ [id]) ltac:(lia) Hrange') as Hbound.
    rewrite distinct_app_new in Hbound by exact Hnew.
    eexists. eexists. split; [reflexivity |].
    unfold vreg_invariant. simpl. repeat apply conj.
    + exact Hrange'.
    + now rewrite length_insert.
    + rewrite Hnext, distinct_app_new by exact Hnew.
      rewrite wrap_int_small by (unfold kMinInt; lia). lia.
    + intros id' Hid' Hnot.
      assert (id' <> id).
      { intros ->. apply Hnot, elem_of_app. right. now apply list_elem_of_singleton. }
      rewrite list_lookup_insert_ne by lia. apply Hfree; [exact Hid' |].
      intros Hin. apply Hnot, elem_of_app. now left.
    + intros id' Hin.
      destruct (decide (Z.to_nat id = Z.to_nat id')) as [Heq | Hne].
      * rewrite <- Heq, list_lookup_insert_eq by exact Hlt.
        eexists. split; [reflexivity |]. lia.
      * rewrite list_lookup_insert_ne by exact Hne.
        apply elem_of_app in Hin. destruct Hin as [Hin | Hin]; [now apply Hset |].
        apply list_elem_of_singleton in Hin. congruence.
    + now apply list_lookup_insert_eq.
    + lia.
    + intros _. exact Hnext.
    + intros m v Hm Hv.
      assert (m <> Z.to_nat id).
      { intros ->. rewrite (Hfree id Hid Hnew) in Hm. congruence. }
      now rewrite list_lookup_insert_ne by lia.
Qed.

(** A run of calls, after the calls for [called]. *)
Lemma GetVirtualRegisters_run (ids : list Z) :
  forall (called : list Z) (s : InstructionSequence.t),
    vreg_invariant NodeCount called s ->
    Forall (fun id => 0 <= id < NodeCount) ids ->
    exists vregs s',
      GetVirtualRegisters ids s = Ok (vregs, s')
      /\ vreg_invariant NodeCount (called ++ ids) s'
      /\ length vregs = length ids
      /\ (forall k id, ids !! k = Some id ->
            exists r, vregs !! k = Some r
                      /\ node_map_ s' !! Z.to_nat id = Some r /\ 0 <= r)
      /\ (forall k id, ids !! k = Some id -> id ∉ called ++ take k ids ->
            vregs !! k = Some (Z.of_nat (distinct (called ++ take k ids))))
      /\ (forall m v, node_map_ s !! m = Some v -> v <> -1 ->
                      node_map_ s' !! m = Some v).
Proof.
  induction ids as [| id ids IH]; intros called s Hinv Hrange.
  - exists [], s. simpl. rewrite app_nil_r.
    split; [reflexivity |]. split; [exact Hinv |]. split; [reflexivity |].
    split; [intros k id Hk; now rewrite lookup_nil in Hk |].
    split; [intros k id Hk; now rewrite lookup_nil in Hk |].
    intros m v Hm _. exact Hm.
  - apply Forall_cons in Hrange. destruct Hrange as [Hid Hrange].
    destruct (GetVirtualRegister_step called s id Hinv Hid)
      as (r & s1 & Hcall & Hinv1 & Hr & Hr0 & Hfirst & Hkeep1).
    destruct (IH (called ++ [id]) s1 Hinv1 Hrange)
      as (vregs & s' & Hrun & Hinv' & Hlen & Hmap & Hfirsts & Hkeep).
    exists (r :: vregs), s'. simpl. rewrite Hcall. simpl. rewrite Hrun. simpl.
    rewrite <- app_assoc in Hinv'. simpl in Hinv'.
    split; [reflexivity |]. split; [exact Hinv' |].
    split; [now rewrite Hlen |]. split; [| split].
    + intros [| k] id' Hk; simpl in *.
      * injection Hk as <-. exists r. repeat split; [| exact Hr0].
        apply Hkeep; [exact Hr | lia].
      * now apply Hmap.
    + intros [| k] id' Hk Hnew; simpl in *.
      * injection Hk as <-. rewrite app_nil_r in *. now rewrite Hfirst.
      * specialize (Hfirsts k id' Hk).
        rewrite <- app_assoc in Hfirsts. simpl in Hfirsts. now apply Hfirsts.
    + intros m v Hm Hv. apply Hkeep; [| exact Hv]. now apply Hkeep1.
Qed.

End GetVirtualRegister.

(** C2. On a new sequence, calls of [GetVirtualRegister] for nodes of the
    graph all return: two calls for the same node return the same id, and
    a call that is the first for its node returns the number of distinct
    nodes called before it, which makes the ids of the first calls 0, 1, 2,
    ... in the order of those calls. *)
Theorem GetVirtualRegister_stable_and_dense
    (z : Zone.t) (NodeCount : Z) (ids : list Z) :
  0 <= NodeCount <= kMaxInt ->
  Forall (fun id => 0 <= id < NodeCount) ids ->
  exists vregs s',
    GetVirtualRegisters ids (InstructionSequence.New z NodeCount) = Ok (vregs, s')
    /\ length vregs = length ids
    /\ (forall i j id, ids !! i = Some id -> ids !! j = Some id ->
          exists r, vregs !! i = Some r /\ vregs !! j = Some r)
    /\ (forall k id, ids !! k = Some id -> id ∉ take k ids ->
          vregs !! k = Some (Z.of_nat (distinct (take k ids)))).
Proof.
  intros HN Hrange.
  destruct (GetVirtualRegisters_run NodeCount HN ids [] _
              (vreg_invariant_New z NodeCount) Hrange)
    as (vregs & s' & Hrun & _ & Hlen & Hmap & Hfirsts & _).
  exists vregs, s'. repeat apply conj; try assumption.
  intros i j id Hi Hj.
  destruct (Hmap i id Hi) as (r & Hri & Hr & _).
  destruct (Hmap j id Hj) as (r' & Hrj & Hr' & _).
  exists r. split; [exact Hri | congruence].
Qed.

Lemma GetVirtualRegister_stable_and_dense_witness :
  exists vregs s',
    GetVirtualRegisters [2; 0; 2; 3; 0] (InstructionSequence.New sample_zone 4)
    = Ok (vregs, s')
    /\ length vregs = 5%nat
    /\ (forall i j id, [2; 0; 2; 3; 0] !! i = Some id -> [2; 0; 2; 3; 0] !! j = Some id ->
          exists r, vregs !! i = Some r /\ vregs !! j = Some r)
    /\ (forall k id, [2; 0; 2; 3; 0] !! k = Some id -> id ∉ take k [2; 0; 2; 3; 0] ->
          vregs !! k = Some (Z.of_nat (distinct (take k [2; 0; 2; 3; 0])))).
Proof.
  apply (GetVirtualRegister_stable_and_dense sample_zone 4 [2; 0; 2; 3; 0]).
  - vm_compute. split; discriminate.
  - repeat constructor; lia.
Defined.

Example GetVirtualRegisters_sample :
  fst <$> match GetVirtualRegisters [2; 0; 2; 3; 0] sample_sequence with
          | Ok r => Some r
          | _ => None
          end
  = Some [0; 1; 0; 2; 1].
Proof. reflexivity. Qed.

(** ** The sample sequence *)

Example sample_code_instructions :
  InstructionSequence.instructions_ sample_code
  = [3; 4; 0; 5; 1; 6; 7; 2]%nat.
Proof. reflexivity. Qed.

Example sample_code_pointer_maps :
  InstructionSequence.pointer_maps_ sample_code = [0%nat]
  /\ Zone.pointer_maps (InstructionSequence.zone sample_code)
     = [PointerMap.Build [] [] (Some 4)].
Proof. split; reflexivity. Qed.

Example sample_code_GetBasicBlock :
  InstructionSequence.GetBasicBlock 7 sample_code = Ok 5%nat
  /\ InstructionSequence.GetBasicBlock 8 sample_code = AssertionFailed
  /\ InstructionSequence.GetBasicBlock (-1) sample_code = AssertionFailed.
Proof. repeat split; reflexivity. Qed.

Lemma pointers_valid_forallb (s : InstructionSequence.t) :
  forallb (fun p => p <? length (Zone.instructions (InstructionSequence.zone s)))%nat
          (InstructionSequence.instructions_ s) = true ->
  pointers_valid s.
Proof.
  intros H j p Hp. rewrite forallb_forall in H.
  apply Nat.ltb_lt, H, list_elem_of_In. eapply list_elem_of_lookup_2, Hp.
Qed.

Lemma pointers_valid_New (z : Zone.t) (NodeCount : Z) :
  pointers_valid (InstructionSequence.New z NodeCount).
Proof. intros j p Hp. simpl in Hp. now rewrite lookup_nil in Hp. Qed.

(** [AddInstruction] keeps every stored pointer valid. *)
Lemma AddInstruction_pointers_valid
    (s s' : InstructionSequence.t) (instr : InstructionPtr) (block : BasicBlockPtr)
    (index : Z) :
  pointers_valid s ->
  InstructionSequence.AddInstruction instr block s = Ok (index, s') ->
  pointers_valid s'.
Proof.
  intros Hvalid Hadd.
  destruct (Zone.instructions (InstructionSequence.zone s) !! instr) as [i |] eqn:Hinstr.
  2: { unfold InstructionSequence.AddInstruction, deref in Hadd.
       rewrite Hinstr in Hadd. discriminate. }
  pose proof (lookup_lt_Some _ _ _ Hinstr) as Hlt.
  assert (Hcases :
    length (Zone.instructions (InstructionSequence.zone s'))
    = S (length (Zone.instructions (InstructionSequence.zone s)))
    /\ InstructionSequence.instructions_ s'
       = InstructionSequence.instructions_ s
         ++ (if Instruction.IsControl i
             then [length (Zone.instructions (InstructionSequence.zone s)); instr]
             else [instr; length (Zone.instructions (InstructionSequence.zone s))])).
  { destruct (Instruction.NeedsPointerMap i) eqn:Hneeds.
    - destruct (Instruction.pointer_map i) as [pm |] eqn:Hpm.
      + rewrite (AddInstruction_map_attached s instr block i Hinstr Hneeds) in Hadd
          by congruence. discriminate.
      + rewrite (AddInstruction_with_map s instr block i Hinstr Hneeds Hpm) in Hadd.
        injection Hadd as _ <-. simpl.
        rewrite length_insert, length_app. simpl. split; [lia | reflexivity].
    - rewrite (AddInstruction_plain s instr block i Hinstr Hneeds) in Hadd.
      injection Hadd as _ <-. simpl.
      rewrite length_app. simpl. split; [lia | reflexivity]. }
  destruct Hcases as [Hzone Hlist].
  intros j p Hp. rewrite Hzone. rewrite Hlist in Hp.
  apply lookup_app_Some in Hp. destruct Hp as [Hp | [_ Hp]].
  - apply Hvalid in Hp. lia.
  - apply list_elem_of_lookup_2 in Hp.
    destruct (Instruction.IsControl i);
      repeat (apply elem_of_cons in Hp; destruct Hp as [-> | Hp]); try lia;
      now apply not_elem_of_nil in Hp.
Qed.

Lemma GetBasicBlock_nearest_block_start_witness :
  InstructionSequence.GetBasicBlock 7 sample_code = Ok 5%nat.
Proof.
  apply (proj1 (GetBasicBlock_nearest_block_start sample_code 7
                  (pointers_valid_forallb sample_code eq_refl)
                  ltac:(vm_compute; reflexivity))
               5%nat).
  exists 0. split; [lia |]. split; [reflexivity |].
  intros k Hk.
  assert (Hcases : k = 1 \/ k = 2 \/ k = 3 \/ k = 4 \/ k = 5 \/ k = 6 \/ k = 7) by lia.
  destruct Hcases as [-> | [-> | [-> | [-> | [-> | [-> | ->]]]]]]; reflexivity.
Defined.

(** ** The scenarios of the specification *)

(** A new sequence and one instruction with one output that is not a
    control instruction: two entries are stored, and the instruction at the
    returned index has one output. *)
Example scenario_one_instruction :
  exists index s',
    InstructionSequence.AddInstruction 0 0 sample_sequence = Ok (index, s')
    /\ index = 0
    /\ length (InstructionSequence.instructions_ s') = 2%nat
    /\ Instruction.OutputCount <$> stored_at s' (Z.to_nat index) = Some 1%nat
    /\ Instruction.IsGapMoves <$> stored_at s' 1 = Some true.
Proof. eexists. eexists. split; [reflexivity |]. repeat split. Qed.

(** A loop header with RPO number 2 and loop end 5. *)
Example scenario_loop_header :
  let h := sample_block 2 5 in
  map (fun rpo => BasicBlock.LoopContains h (sample_block rpo (-1))) [2; 3; 4; 5]
  = [Some true; Some true; Some true; Some false].
Proof. reflexivity. Qed.

(** Two tagged locations and the argument slot [[stack:-1]] recorded as
    pointers: the map holds the two locations and not the argument slot. *)
Example scenario_call_pointer_map :
  pointer_map_calls
    [CallRecordPointer (Register 0); CallRecordPointer (StackSlot 1);
     CallRecordPointer (StackSlot (-1))]
    (PointerMap.set_instruction_position 4 PointerMap.New)
  = Ok (PointerMap.Build [Register 0; StackSlot 1] [] (Some 4)).
Proof. reflexivity. Qed.

(** A parallel move whose only live move copies a register to another one
    is not redundant; once that move is eliminated, it is. *)
Example scenario_parallel_move :
  ParallelMove.IsRedundant
    (ParallelMove.Build
       [MoveOperands.Build (Register 1) (Register 1) false;
        MoveOperands.Build (Register 1) (Register 2) false]) = false
  /\ ParallelMove.IsRedundant
       (ParallelMove.Build
          [MoveOperands.Build (Register 1) (Register 1) false;
           MoveOperands.Build (Register 1) (Register 2) true]) = true.
Proof. split; reflexivity. Qed.

(** * Further properties *)

(** ** What one [AddInstruction] changes *)

(** Everything a call that returns has done. *)
Lemma AddInstruction_effect
    (s s' : InstructionSequence.t) (instr : InstructionPtr) (block : BasicBlockPtr)
    (index : Z) :
  InstructionSequence.AddInstruction instr block s = Ok (index, s') ->
  exists i,
    Zone.instructions (InstructionSequence.zone s) !! instr = Some i
    /\ (Instruction.NeedsPointerMap i = true -> Instruction.pointer_map i = None)
    /\ index
       = static_cast_int
           (if Instruction.IsControl i
            then S (length (InstructionSequence.instructions_ s))
            else length (InstructionSequence.instructions_ s))
    /\ InstructionSequence.instructions_ s'
       = InstructionSequence.instructions_ s
         ++ (if Instruction.IsControl i
             then [length (Zone.instructions (InstructionSequence.zone s)); instr]
             else [instr; length (Zone.instructions (InstructionSequence.zone s))])
    /\ Zone.instructions (InstructionSequence.zone s')
       = (if Instruction.NeedsPointerMap i
          then <[instr := Instruction.set_pointer_map
                            (length (Zone.pointer_maps (InstructionSequence.zone s))) i]>
          else fun l => l)
           (Zone.instructions (InstructionSequence.zone s) ++ [GapInstruction.New])
    /\ Zone.pointer_maps (InstructionSequence.zone s')
       = Zone.pointer_maps (InstructionSequence.zone s)
         ++ (if Instruction.NeedsPointerMap i
             then [PointerMap.Build [] [] (Some index)] else [])
    /\ InstructionSequence.pointer_maps_ s'
       = InstructionSequence.pointer_maps_ s
         ++ (if Instruction.NeedsPointerMap i
             then [length (Zone.pointer_maps (InstructionSequence.zone s))] else [])
    /\ InstructionSequence.node_map_ s' = InstructionSequence.node_map_ s
    /\ InstructionSequence.next_virtual_register_ s'
       = InstructionSequence.next_virtual_register_ s
    /\ InstructionSequence.deoptimization_entries_ s'
       = InstructionSequence.deoptimization_entries_ s.
Proof.
  intros Hadd.
  destruct (Zone.instructions (InstructionSequence.zone s) !! instr) as [i |] eqn:Hinstr.
  2: { unfold InstructionSequence.AddInstruction, deref in Hadd.
       rewrite Hinstr in Hadd. discriminate. }
  exists i. split; [reflexivity |].
  assert (Hlen : forall (l : list nat) (g : nat),
             length (if Instruction.IsControl i then l ++ [g] else l)
             = if Instruction.IsControl i then S (length l) else length l).
  { intros l g. destruct (Instruction.IsControl i); [| reflexivity].
    rewrite length_app. simpl. lia. }
  destruct (Instruction.NeedsPointerMap i) eqn:Hneeds.
  - destruct (Instruction.pointer_map i) as [pm |] eqn:Hpm.
    + rewrite (AddInstruction_map_attached s instr block i Hinstr Hneeds) in Hadd
        by congruence. discriminate.
    + rewrite (AddInstruction_with_map s instr block i Hinstr Hneeds Hpm) in Hadd.
      cbv zeta in Hadd. rewrite Hlen in Hadd.
      injection Hadd as <- <-. simpl. rewrite app_nil_r || idtac.
      repeat (split; [reflexivity || (intros _; reflexivity) |]). reflexivity.
  - rewrite (AddInstruction_plain s instr block i Hinstr Hneeds) in Hadd.
    cbv zeta in Hadd. rewrite Hlen in Hadd.
    injection Hadd as <- <-. simpl. rewrite !app_nil_r.
    repeat (split; [reflexivity || (intros; discriminate) |]). reflexivity.
Qed.

Lemma zone_grown_refl (z : Zone.t) : zone_grown z z.
Proof. intros p i Hp. exists i. auto. Qed.

Lemma zone_grown_trans (z1 z2 z3 : Zone.t) :
  zone_grown z1 z2 -> zone_grown z2 z3 -> zone_grown z1 z3.
Proof.
  intros H12 H23 p i Hp.
  destruct (H12 p i Hp) as (i2 & Hp2 & Hi2).
  destruct (H23 p i2 Hp2) as (i3 & Hp3 & Hi3).
  exists i3. split; [exact Hp3 |].
  destruct Hi2 as [-> | (Hneeds & Hnone & pm & ->)]; [exact Hi3 |].
  destruct Hi3 as [-> | (_ & Hcontra & _)]; [| discriminate].
  right. eauto.
Qed.

Lemma AddInstruction_zone_grown
    (s s' : InstructionSequence.t) (instr : InstructionPtr) (block : BasicBlockPtr)
    (index : Z) :
  InstructionSequence.AddInstruction instr block s = Ok (index, s') ->
  zone_grown (InstructionSequence.zone s) (InstructionSequence.zone s').
Proof.
  intros Hadd.
  destruct (AddInstruction_effect _ _ _ _ _ Hadd)
    as (i & Hinstr & Hnone & _ & _ & Hzone & _).
  intros p ip Hp. rewrite Hzone.
  pose proof (lookup_lt_Some _ _ _ Hp) as Hlt.
  destruct (Instruction.NeedsPointerMap i) eqn:Hneeds.
  - destruct (decide (p = instr)) as [-> | Hne].
    + rewrite list_lookup_insert_eq by (rewrite length_app; lia).
      eexists. split; [reflexivity |]. right.
      assert (ip = i) as -> by congruence. eauto.
    + rewrite list_lookup_insert_ne by congruence.
      rewrite lookup_app_l by lia. eauto.
  - rewrite lookup_app_l by lia. eauto.
Qed.

(** An instruction that needs no pointer map is never written to. *)
Lemma zone_grown_plain (z z' : Zone.t) (p : InstructionPtr) (i : Instruction.t) :
  zone_grown z z' ->
  Zone.instructions z !! p = Some i ->
  Instruction.NeedsPointerMap i = false ->
  Zone.instructions z' !! p = Some i.
Proof.
  intros Hgrown Hp Hneeds.
  destruct (Hgrown p i Hp) as (i' & Hp' & [-> | (Hcontra & _)]); congruence.
Qed.

Lemma zone_grown_class (z z' : Zone.t) (p : InstructionPtr) (i : Instruction.t) :
  zone_grown z z' ->
  Zone.instructions z !! p = Some i ->
  exists i', Zone.instructions z' !! p = Some i'
             /\ Instruction.class i' = Instruction.class i
             /\ Instruction.IsControl i' = Instruction.IsControl i
             /\ Instruction.NeedsPointerMap i' = Instruction.NeedsPointerMap i.
Proof.
  intros Hgrown Hp.
  destruct (Hgrown p i Hp) as (i' & Hp' & [-> | (_ & _ & pm & ->)]); eauto.
Qed.

(** Where the returned index points, when the indices fit an [int]. *)
Lemma AddInstruction_index
    (s s' : InstructionSequence.t) (instr : InstructionPtr) (block : BasicBlockPtr)
    (index : Z) :
  InstructionSequence.AddInstruction instr block s = Ok (index, s') ->
  Z.of_nat (length (InstructionSequence.instructions_ s)) + 1 <= kMaxInt ->
  exists i,
    Zone.instructions (InstructionSequence.zone s) !! instr = Some i
    /\ index = Z.of_nat (length (InstructionSequence.instructions_ s))
               + (if Instruction.IsControl i then 1 else 0)
    /\ length (InstructionSequence.instructions_ s')
       = S (S (length (InstructionSequence.instructions_ s)))
    /\ InstructionSequence.instructions_ s' !! Z.to_nat index = Some instr
    /\ InstructionSequence.instructions_ s'
       !! (length (InstructionSequence.instructions_ s)
           + (if Instruction.IsControl i then 0 else 1))%nat
       = Some (length (Zone.instructions (InstructionSequence.zone s)))
    /\ forall j, (j < length (InstructionSequence.instructions_ s))%nat ->
         InstructionSequence.instructions_ s' !! j
         = InstructionSequence.instructions_ s !! j.
Proof.
  intros Hadd Hsize.
  destruct (AddInstruction_effect _ _ _ _ _ Hadd)
    as (i & Hinstr & _ & Hindex & Hlist & _).
  exists i. split; [exact Hinstr |]. rewrite Hlist, Hindex.
  destruct (Instruction.IsControl i).
  - rewrite static_cast_int_small by lia. repeat apply conj.
    + lia.
    + rewrite length_app. simpl. lia.
    + replace (Z.to_nat _) with (length (InstructionSequence.instructions_ s) + 1)%nat by lia.
      now rewrite lookup_app_r, Nat.add_comm, Nat.add_sub by lia.
    + now rewrite Nat.add_0_r, lookup_app_r, Nat.sub_diag by lia.
    + intros j Hj. now rewrite lookup_app_l by lia.
  - rewrite static_cast_int_small by lia. repeat apply conj.
    + lia.
    + rewrite length_app. simpl. lia.
    + rewrite Nat2Z.id. now rewrite lookup_app_r, Nat.sub_diag by lia.
    + now rewrite lookup_app_r, Nat.add_comm, Nat.add_sub by lia.
    + intros j Hj. now rewrite lookup_app_l by lia.
Qed.

Lemma addable_after_AddInstruction
    (s s' : InstructionSequence.t) (instr : InstructionPtr) (block : BasicBlockPtr)
    (index : Z) (i : Instruction.t) (rest : list InstructionPtr) :
  InstructionSequence.AddInstruction instr block s = Ok (index, s') ->
  Zone.instructions (InstructionSequence.zone s) !! instr = Some i ->
  (Instruction.NeedsPointerMap i = true -> instr ∉ rest) ->
  addable (InstructionSequence.zone s) rest ->
  addable (InstructionSequence.zone s') rest.
Proof.
  intros Hadd Hinstr.
  destruct (AddInstruction_effect _ _ _ _ _ Hadd)
    as (i0 & Hinstr0 & _ & _ & _ & Hzone & _).
  assert (i0 = i) as -> by congruence.
  induction rest as [| r rest IH]; intros Hfresh Hok; [exact I |].
  destruct Hok as [(ir & Hr & Hmap) Hrest]. split.
  - exists ir. split; [| exact Hmap].
    pose proof (lookup_lt_Some _ _ _ Hr) as Hlt. rewrite Hzone.
    destruct (Instruction.NeedsPointerMap i) eqn:Hneeds.
    + assert (r <> instr).
      { intros ->. apply (Hfresh eq_refl). now left. }
      rewrite list_lookup_insert_ne by congruence. now rewrite lookup_app_l by lia.
    + now rewrite lookup_app_l by lia.
  - apply IH; [| exact Hrest].
    intros Hneeds Hin. apply (Hfresh Hneeds). now right.
Qed.

Lemma AddInstruction_returns
    (s : InstructionSequence.t) (instr : InstructionPtr) (block : BasicBlockPtr)
    (i : Instruction.t) :
  Zone.instructions (InstructionSequence.zone s) !! instr = Some i ->
  (Instruction.NeedsPointerMap i = true -> Instruction.pointer_map i = None) ->
  exists index s', InstructionSequence.AddInstruction instr block s = Ok (index, s').
Proof.
  intros Hinstr Hmap. destruct (Instruction.NeedsPointerMap i) eqn:Hneeds.
  - rewrite (AddInstruction_with_map s instr block i Hinstr Hneeds (Hmap eq_refl)). eauto.
  - rewrite (AddInstruction_plain s instr block i Hinstr Hneeds). eauto.
Qed.

Lemma AddInstruction_gap_object
    (s s' : InstructionSequence.t) (instr : InstructionPtr) (block : BasicBlockPtr)
    (index : Z) :
  InstructionSequence.AddInstruction instr block s = Ok (index, s') ->
  Zone.instructions (InstructionSequence.zone s')
  !! length (Zone.instructions (InstructionSequence.zone s))
  = Some GapInstruction.New.
Proof.
  intros Hadd.
  destruct (AddInstruction_effect _ _ _ _ _ Hadd)
    as (i & Hinstr & _ & _ & _ & Hzone & _).
  pose proof (lookup_lt_Some _ _ _ Hinstr) as Hlt. rewrite Hzone.
  destruct (Instruction.NeedsPointerMap i).
  - rewrite list_lookup_insert_ne by lia.
    now rewrite lookup_app_r, Nat.sub_diag by lia.
  - now rewrite lookup_app_r, Nat.sub_diag by lia.
Qed.

Section AddInstructions.

Import InstructionSequence.

Variable block : BasicBlockPtr.

Lemma AddInstructions_layout_from (instrs : list InstructionPtr) :
  forall s : InstructionSequence.t,
    addable (zone s) instrs ->
    Z.of_nat (length (instructions_ s) + 2 * length instrs) <= kMaxInt ->
    exists indices s',
      AddInstructions instrs block s = Ok (indices, s')
      /\ zone_grown (zone s) (zone s')
      /\ length (instructions_ s') = (length (instructions_ s) + 2 * length instrs)%nat
      /\ (forall j, (j < length (instructions_ s))%nat ->
            instructions_ s' !! j = instructions_ s !! j)
      /\ forall k instr, instrs !! k = Some instr ->
           exists i gap,
             Zone.instructions (zone s) !! instr = Some i
             /\ indices !! k
                = Some (Z.of_nat (length (instructions_ s) + 2 * k)
                        + (if Instruction.IsControl i then 1 else 0))
             /\ instructions_ s'
                !! (length (instructions_ s) + 2 * k
                    + (if Instruction.IsControl i then 1 else 0))%nat = Some instr
             /\ instructions_ s'
                !! (length (instructions_ s) + 2 * k
                    + (if Instruction.IsControl i then 0 else 1))%nat = Some gap
             /\ Zone.instructions (zone s) !! gap = None
             /\ Zone.instructions (zone s') !! gap = Some GapInstruction.New.
Proof.
  induction instrs as [| instr rest IH]; intros s Hok Hsize.
  - exists [], s. simpl. split; [reflexivity |].
    split; [apply zone_grown_refl |]. split; [lia |]. split; [auto |].
    intros k instr Hk. now rewrite lookup_nil in Hk.
  - simpl in Hok, Hsize. destruct Hok as [(i & Hinstr & Hmap) Hrest].
    destruct (AddInstruction_returns s instr block i Hinstr
                (fun H => proj1 (Hmap H))) as (index & s1 & Hadd).
    destruct (AddInstruction_index _ _ _ _ _ Hadd ltac:(lia))
      as (i0 & Hinstr0 & Hindex & Hlen1 & Hat & Hgap & Hprefix1).
    assert (i0 = i) as -> by congruence.
    pose proof (AddInstruction_zone_grown _ _ _ _ _ Hadd) as Hgrown1.
    pose proof (AddInstruction_gap_object _ _ _ _ _ Hadd) as Hgapobj.
    destruct (IH s1) as (indices & s' & Hrun & Hgrown & Hlen & Hprefix & Hcalls).
    { eapply addable_after_AddInstruction; eauto. intros H. apply (Hmap H). }
    { rewrite Hlen1. lia. }
    exists (index :: indices), s'. simpl. rewrite Hadd. simpl. rewrite Hrun. simpl.
    split; [reflexivity |].
    split; [eapply zone_grown_trans; eauto |].
    split; [rewrite Hlen, Hlen1; lia |].
    split; [intros j Hj; rewrite Hprefix by lia; now apply Hprefix1 |].
    intros [| k] instr' Hk; simpl in Hk.
    + injection Hk as <-.
      exists i, (length (Zone.instructions (zone s))).
      split; [exact Hinstr |]. simpl. rewrite Nat.add_0_r.
      split; [now rewrite Hindex |].
      split.
      { rewrite Hprefix by (destruct (Instruction.IsControl i); lia).
        rewrite <- Hat. f_equal. rewrite Hindex.
        destruct (Instruction.IsControl i); lia. }
      split; [rewrite Hprefix by (destruct (Instruction.IsControl i); lia); exact Hgap |].
      split; [apply lookup_ge_None; lia |].
      now apply (zone_grown_plain _ _ _ _ Hgrown Hgapobj).
    + destruct (Hcalls k instr' Hk)
        as (i1 & gap & Hinstr1 & Hidx & Hat' & Hgap' & Hfresh & Hobj).
      assert (Hin : exists i', Zone.instructions (zone s) !! instr' = Some i').
      { clear -Hrest Hk. revert k Hk. induction rest as [| r rest IHr]; intros k Hk.
        - now rewrite lookup_nil in Hk.
        - destruct Hrest as [(ir & Hr & _) Hrest]. destruct k as [| k]; simpl in Hk.
          + injection Hk as <-. eauto.
          + eapply IHr; eauto. }
      destruct Hin as (i' & Hinstr').
      destruct (zone_grown_class _ _ _ _ Hgrown1 Hinstr')
        as (i1' & Hinstr1' & _ & Hcontrol & _).
      assert (i1' = i1) as -> by congruence.
      exists i', gap. rewrite <- Hcontrol. rewrite Hlen1 in *.
      split; [exact Hinstr' |].
      split; [change ((index :: indices) !! S k) with (indices !! k);
              rewrite Hidx; f_equal; lia |].
      split; [rewrite <- Hat'; f_equal; lia |].
      split; [rewrite <- Hgap'; f_equal; lia |].
      split; [| exact Hobj].
      apply lookup_ge_None. apply lookup_ge_None in Hfresh.
      pose proof (AddInstruction_effect _ _ _ _ _ Hadd)
        as (? & _ & _ & _ & _ & Hzone & _).
      rewrite Hzone in Hfresh.
      destruct (Instruction.NeedsPointerMap x);
        rewrite ?length_insert, length_app in Hfresh; simpl in Hfresh; lia.
Qed.

End AddInstructions.

(** X1. Instructions added one after the other to a new sequence, each an
    instruction of the zone, those that need a pointer map with none
    attached and not added twice: every call returns; the [k]-th call fills
    the indices [2k] and [2k + 1], with the instruction and a gap that is a
    new object with empty slots, the gap first exactly when the instruction
    is a control instruction; the call returns the index of the
    instruction. *)
Theorem AddInstructions_layout
    (z : Zone.t) (NodeCount : Z) (block : BasicBlockPtr) (instrs : list InstructionPtr) :
  addable z instrs ->
  Z.of_nat (2 * length instrs) <= kMaxInt ->
  exists indices s',
    AddInstructions instrs block (InstructionSequence.New z NodeCount) = Ok (indices, s')
    /\ length (InstructionSequence.instructions_ s') = (2 * length instrs)%nat
    /\ forall k instr, instrs !! k = Some instr ->
         exists i gap,
           Zone.instructions z !! instr = Some i
           /\ indices !! k
              = Some (Z.of_nat (2 * k) + (if Instruction.IsControl i then 1 else 0))
           /\ InstructionSequence.instructions_ s'
              !! (2 * k + (if Instruction.IsControl i then 1 else 0))%nat = Some instr
           /\ InstructionSequence.instructions_ s'
              !! (2 * k + (if Instruction.IsControl i then 0 else 1))%nat = Some gap
           /\ Zone.instructions z !! gap = None
           /\ Zone.instructions (InstructionSequence.zone s') !! gap
              = Some GapInstruction.New.
Proof.
  intros Hok Hsize.
  destruct (AddInstructions_layout_from block instrs (InstructionSequence.New z NodeCount)
              Hok ltac:(simpl; lia))
    as (indices & s' & Hrun & _ & Hlen & _ & Hcalls).
  exists indices, s'. split; [exact Hrun |]. split; [exact Hlen |].
  intros k instr Hk. exact (Hcalls k instr Hk).
Qed.

Lemma addable_sample : addable sample_zone [3; 0; 1; 2]%nat.
Proof.
  simpl. repeat split; eexists; (split; [reflexivity |]); try discriminate.
  intros _. split; [reflexivity |].
  intros Hin. apply list_elem_of_singleton in Hin. discriminate.
Qed.

Lemma AddInstructions_layout_witness :
  exists indices s',
    AddInstructions [3; 0; 1; 2]%nat 5 (InstructionSequence.New sample_zone 4)
    = Ok (indices, s')
    /\ length (InstructionSequence.instructions_ s') = 8%nat
    /\ forall k instr, [3; 0; 1; 2]%nat !! k = Some instr ->
         exists i gap,
           Zone.instructions sample_zone !! instr = Some i
           /\ indices !! k
              = Some (Z.of_nat (2 * k) + (if Instruction.IsControl i then 1 else 0))
           /\ InstructionSequence.instructions_ s'
              !! (2 * k + (if Instruction.IsControl i then 1 else 0))%nat = Some instr
           /\ InstructionSequence.instructions_ s'
              !! (2 * k + (if Instruction.IsControl i then 0 else 1))%nat = Some gap
           /\ Zone.instructions sample_zone !! gap = None
           /\ Zone.instructions (InstructionSequence.zone s') !! gap
              = Some GapInstruction.New.
Proof.
  apply (AddInstructions_layout sample_zone 4 5 [3; 0; 1; 2]%nat addable_sample).
  vm_compute. discriminate.
Defined.

(** ** The list of pointer maps *)

Lemma pointer_maps_mirrored_New (z : Zone.t) (NodeCount : Z) :
  pointer_maps_mirrored (InstructionSequence.New z NodeCount).
Proof. intros k p Hk. simpl in Hk. now rewrite lookup_nil in Hk. Qed.

Lemma positions_increasing_New (z : Zone.t) (NodeCount : Z) :
  positions_increasing (InstructionSequence.New z NodeCount).
Proof.
  intros k1 k2 i1 i2 _ Hk. unfold pointer_map_positions in Hk. simpl in Hk.
  now rewrite lookup_nil in Hk.
Qed.

Section PointerMaps.

Import InstructionSequence.

Variables s s' : InstructionSequence.t.
Variable instr : InstructionPtr.
Variable block : BasicBlockPtr.
Variable index : Z.
Hypothesis Hadd : AddInstruction instr block s = Ok (index, s').
Hypothesis Hsize : Z.of_nat (length (instructions_ s)) + 1 <= kMaxInt.
Hypothesis Hmirrored : pointer_maps_mirrored s.

Lemma AddInstruction_pointer_maps_mirrored : pointer_maps_mirrored s'.
Proof.
  destruct (AddInstruction_effect _ _ _ _ _ Hadd)
    as (i & Hinstr & Hnone & _ & Hlist & Hzone & Hpmaps & Hmaps & _).
  destruct (AddInstruction_index _ _ _ _ _ Hadd Hsize)
    as (i0 & Hinstr0 & Hindex & _ & Hat & _ & Hprefix).
  assert (i0 = i) as -> by congruence.
  pose proof (AddInstruction_zone_grown _ _ _ _ _ Hadd) as Hgrown.
  pose proof (lookup_lt_Some _ _ _ Hinstr) as Hlt.
  intros k pm_ptr Hk. rewrite Hmaps in Hk.
  apply lookup_app_Some in Hk. destruct Hk as [Hk | [Hge Hk]].
  - (* a pointer map that was on the list *)
    destruct (Hmirrored k pm_ptr Hk)
      as (pm & idx & ip & ii & Hpm & Hpos & Hidx & Hip & Hii & Hneeds & Hattached).
    exists pm, idx, ip, ii.
    split; [rewrite Hpmaps; apply lookup_app_l_Some; exact Hpm |].
    split; [exact Hpos |]. split; [exact Hidx |].
    split; [rewrite Hprefix; [exact Hip | now apply lookup_lt_Some in Hip] |].
    split; [| split; assumption].
    destruct (Hgrown ip ii Hii) as (ii' & Hii' & [-> | (_ & Hcontra & _)]);
      [exact Hii' | congruence].
  - (* the pointer map of this call *)
    revert Hk. destruct (Instruction.NeedsPointerMap i) eqn:Hneeds; intros Hk;
      [| now rewrite lookup_nil in Hk].
    apply list_lookup_singleton_Some in Hk. destruct Hk as [_ <-].
    exists (PointerMap.Build [] [] (Some index)), index, instr,
           (Instruction.set_pointer_map (length (Zone.pointer_maps (zone s))) i).
    split; [rewrite Hpmaps; now rewrite lookup_app_r, Nat.sub_diag by lia |].
    split; [reflexivity |].
    split; [rewrite Hindex; destruct (Instruction.IsControl i); lia |].
    split; [exact Hat |].
    split; [rewrite Hzone; apply list_lookup_insert_eq; rewrite length_app; lia |].
    split; [exact Hneeds | reflexivity].
Qed.

Lemma AddInstruction_positions :
  exists i,
    Zone.instructions (zone s) !! instr = Some i
    /\ pointer_map_positions s'
       = pointer_map_positions s
         ++ (if Instruction.NeedsPointerMap i then [Some index] else []).
Proof.
  destruct (AddInstruction_effect _ _ _ _ _ Hadd)
    as (i & Hinstr & _ & _ & _ & _ & Hpmaps & Hmaps & _).
  exists i. split; [exact Hinstr |].
  unfold pointer_map_positions. rewrite Hmaps, map_app. f_equal.
  - apply map_ext_in. intros pm_ptr Hin.
    apply list_elem_of_In, list_elem_of_lookup_1 in Hin. destruct Hin as [k Hk].
    destruct (Hmirrored k pm_ptr Hk) as (pm & _ & _ & _ & Hpm & _).
    rewrite Hpmaps, (lookup_app_l_Some _ _ _ _ Hpm). now rewrite Hpm.
  - destruct (Instruction.NeedsPointerMap i); [| reflexivity]. simpl.
    rewrite Hpmaps. now rewrite lookup_app_r, Nat.sub_diag by lia.
Qed.

Lemma AddInstruction_positions_increasing :
  positions_increasing s -> positions_increasing s'.
Proof.
  intros Hinc.
  destruct AddInstruction_positions as (i & Hinstr & Hpos).
  destruct (AddInstruction_index _ _ _ _ _ Hadd Hsize)
    as (i0 & Hinstr0 & Hindex & _).
  assert (i0 = i) as -> by congruence.
  assert (Hold : forall k idx, pointer_map_positions s !! k = Some (Some idx) ->
                               idx < Z.of_nat (length (instructions_ s))).
  { intros k idx Hk. unfold pointer_map_positions in Hk.
    rewrite list_lookup_fmap in Hk.
    destruct (pointer_maps_ s !! k) as [pm_ptr |] eqn:Hptr; [| discriminate].
    destruct (Hmirrored k pm_ptr Hptr)
      as (pm & idx' & ip & _ & Hpm & Hidx' & H0 & Hip & _).
    simpl in Hk. rewrite Hpm, Hidx' in Hk. injection Hk as <-.
    apply lookup_lt_Some in Hip. lia. }
  intros k1 k2 i1 i2 Hlt H1 H2. rewrite Hpos in H1, H2.
  apply lookup_app_Some in H2. destruct H2 as [H2 | [Hge H2]].
  - rewrite lookup_app_l in H1 by (apply lookup_lt_Some in H2; lia).
    exact (Hinc k1 k2 i1 i2 Hlt H1 H2).
  - revert H1 H2. destruct (Instruction.NeedsPointerMap i); intros H1 H2;
      [| now rewrite lookup_nil in H2].
    apply list_lookup_singleton_Some in H2. destruct H2 as [Hk2 [= <-]].
    rewrite lookup_app_l in H1 by lia.
    apply Hold in H1. rewrite Hindex. destruct (Instruction.IsControl i); lia.
Qed.

End PointerMaps.

Lemma AddInstructions_pointer_maps_from
    (block : BasicBlockPtr) (instrs : list InstructionPtr) :
  forall (s s' : InstructionSequence.t) (indices : list Z),
    AddInstructions instrs block s = Ok (indices, s') ->
    Z.of_nat (length (InstructionSequence.instructions_ s) + 2 * length instrs)
    <= kMaxInt ->
    pointer_maps_mirrored s -> positions_increasing s ->
    pointer_maps_mirrored s' /\ positions_increasing s'.
Proof.
  induction instrs as [| instr rest IH]; intros s s' indices Hrun Hsize Hmir Hinc.
  - simpl in Hrun. injection Hrun as _ <-. auto.
  - simpl in Hrun, Hsize.
    destruct (InstructionSequence.AddInstruction instr block s)
      as [[index s1] | |] eqn:Hadd; simpl in Hrun; try discriminate.
    destruct (AddInstructions rest block s1) as [[indices' s2] | |] eqn:Hrest;
      simpl in Hrun; try discriminate.
    injection Hrun as _ <-.
    destruct (AddInstruction_index _ _ _ _ _ Hadd ltac:(lia)) as (_ & _ & _ & Hlen & _).
    apply (IH s1 s2 indices' Hrest).
    + rewrite Hlen. lia.
    + eapply AddInstruction_pointer_maps_mirrored; eauto. lia.
    + eapply AddInstruction_positions_increasing; eauto. lia.
Qed.

(** X2. In a sequence that calls of [AddInstruction] have built from a new
    one, the list of pointer maps mirrors the instructions: each of its
    entries has as instruction position the index of an instruction that
    needs a pointer map and has this very map attached; and the positions
    grow strictly along the list. *)
Theorem AddInstructions_pointer_maps
    (z : Zone.t) (NodeCount : Z) (block : BasicBlockPtr)
    (instrs : list InstructionPtr) (indices : list Z) (s' : InstructionSequence.t) :
  AddInstructions instrs block (InstructionSequence.New z NodeCount) = Ok (indices, s') ->
  Z.of_nat (2 * length instrs) <= kMaxInt ->
  pointer_maps_mirrored s' /\ positions_increasing s'.
Proof.
  intros Hrun Hsize.
  apply (AddInstructions_pointer_maps_from block instrs _ s' indices Hrun).
  - simpl. lia.
  - apply pointer_maps_mirrored_New.
  - apply positions_increasing_New.
Qed.

Lemma AddInstructions_pointer_maps_witness :
  pointer_maps_mirrored sample_code /\ positions_increasing sample_code.
Proof.
  apply (AddInstructions_pointer_maps sample_zone 4 5 [3; 0; 1; 2]%nat
           [0; 2; 4; 7] sample_code).
  - reflexivity.
  - vm_compute. discriminate.
Defined.

(** ** Blocks *)

Lemma stored_at_grown (s s' : InstructionSequence.t) (j : nat) :
  pointers_valid s ->
  zone_grown (InstructionSequence.zone s) (InstructionSequence.zone s') ->
  InstructionSequence.instructions_ s' !! j = InstructionSequence.instructions_ s !! j ->
  (j < length (InstructionSequence.instructions_ s))%nat ->
  block_start_at s' j = block_start_at s j.
Proof.
  intros Hvalid Hgrown Hsame Hlt. unfold block_start_at, stored_at. rewrite Hsame.
  apply lookup_lt_is_Some in Hlt. destruct Hlt as [p Hp]. rewrite Hp.
  pose proof (Hvalid _ _ Hp) as Hlt. apply lookup_lt_is_Some in Hlt.
  destruct Hlt as [i Hi].
  destruct (zone_grown_class _ _ _ _ Hgrown Hi) as (i' & Hi' & Hclass & _).
  now rewrite Hi, Hi', Hclass.
Qed.

(** What the two new entries of the sequence are, as to block starts. *)
Lemma AddInstruction_block_start_at
    (s s' : InstructionSequence.t) (instr : InstructionPtr) (block : BasicBlockPtr)
    (index : Z) :
  InstructionSequence.AddInstruction instr block s = Ok (index, s') ->
  pointers_valid s ->
  Z.of_nat (length (InstructionSequence.instructions_ s)) + 1 <= kMaxInt ->
  exists i,
    Zone.instructions (InstructionSequence.zone s) !! instr = Some i
    /\ (forall j, (j < length (InstructionSequence.instructions_ s))%nat ->
          block_start_at s' j = block_start_at s j)
    /\ block_start_at s' (Z.to_nat index)
       = match Instruction.class i with
         | Instruction.BlockStart _ b => Some b
         | _ => None
         end
    /\ block_start_at s'
         (length (InstructionSequence.instructions_ s)
          + (if Instruction.IsControl i then 0 else 1))%nat = None.
Proof.
  intros Hadd Hvalid Hsize.
  destruct (AddInstruction_index _ _ _ _ _ Hadd Hsize)
    as (i & Hinstr & Hindex & Hlen & Hat & Hgap & Hprefix).
  pose proof (AddInstruction_zone_grown _ _ _ _ _ Hadd) as Hgrown.
  pose proof (AddInstruction_gap_object _ _ _ _ _ Hadd) as Hgapobj.
  exists i. split; [exact Hinstr |]. repeat apply conj.
  - intros j Hj. apply stored_at_grown; auto.
  - unfold block_start_at, stored_at. rewrite Hat.
    destruct (zone_grown_class _ _ _ _ Hgrown Hinstr) as (i' & Hi' & Hclass & _).
    now rewrite Hi', Hclass.
  - unfold block_start_at, stored_at. now rewrite Hgap, Hgapobj.
Qed.

(** [GetBasicBlock] looks at nothing but the block starts at and below its
    index. *)
Lemma GetBasicBlock_ext (s s' : InstructionSequence.t) (n : nat) :
  pointers_valid s -> pointers_valid s' ->
  forall idx : Z,
    idx = Z.of_nat n - 1 ->
    idx < Z.of_nat (length (InstructionSequence.instructions_ s)) ->
    idx < Z.of_nat (length (InstructionSequence.instructions_ s')) ->
    (forall j, 0 <= j <= idx ->
               block_start_at s' (Z.to_nat j) = block_start_at s (Z.to_nat j)) ->
    InstructionSequence.GetBasicBlock idx s' = InstructionSequence.GetBasicBlock idx s.
Proof.
  intros Hvalid Hvalid'. induction n as [| n IH]; intros idx -> Hlt Hlt' Hsame.
  - now rewrite !GetBasicBlock_negative by (assumption || lia).
  - rewrite (GetBasicBlock_step s Hvalid), (GetBasicBlock_step s' Hvalid') by lia.
    rewrite Hsame by lia.
    destruct (block_start_at s (Z.to_nat (Z.of_nat (S n) - 1))); [reflexivity |].
    apply IH; try lia. intros j Hj. apply Hsame. lia.
Qed.

(** From the start of a block up to the next block start, every index
    belongs to the block. *)
Lemma GetBasicBlock_in_block
    (s : InstructionSequence.t) (start : nat) (block : BasicBlockPtr) (m : nat) :
  pointers_valid s ->
  block_start_at s start = Some block ->
  (start + m < length (InstructionSequence.instructions_ s))%nat ->
  (forall k, (start < k <= start + m)%nat -> block_start_at s k = None) ->
  InstructionSequence.GetBasicBlock (Z.of_nat (start + m)) s = Ok block.
Proof.
  intros Hvalid Hstart. induction m as [| m IH]; intros Hlt Hnone.
  - rewrite GetBasicBlock_step by (assumption || lia).
    now rewrite Nat2Z.id, Nat.add_0_r, Hstart.
  - rewrite GetBasicBlock_step by (assumption || lia).
    rewrite Nat2Z.id, Hnone by lia.
    replace (Z.of_nat (start + S m) - 1) with (Z.of_nat (start + m)) by lia.
    apply IH; [lia |]. intros k Hk. apply Hnone. lia.
Qed.

Lemma pointers_valid_set_zone (s : InstructionSequence.t) (z : Zone.t) :
  pointers_valid s ->
  (length (Zone.instructions (InstructionSequence.zone s))
   <= length (Zone.instructions z))%nat ->
  pointers_valid (InstructionSequence.set_zone z s).
Proof. intros Hvalid Hle j p Hp. simpl in *. apply Hvalid in Hp. lia. Qed.

(** What [StartBlock] does, for a block of the zone. *)
Lemma StartBlock_effect
    (block : BasicBlockPtr) (blocks : list BasicBlock.t)
    (s : InstructionSequence.t) (b : BasicBlock.t) :
  blocks !! block = Some b ->
  StartBlock block blocks s
  = Ok (<[block := set_code_start
                     (static_cast_int (length (InstructionSequence.instructions_ s))) b]>
          blocks,
        InstructionSequence.set_instructions
          (InstructionSequence.instructions_ s
           ++ [length (Zone.instructions (InstructionSequence.zone s));
               S (length (Zone.instructions (InstructionSequence.zone s)))])
          (InstructionSequence.set_zone
             (Zone.Build
                (Zone.instructions (InstructionSequence.zone s)
                 ++ [BlockStartInstruction.New block; GapInstruction.New])
                (Zone.pointer_maps (InstructionSequence.zone s)))
             s)).
Proof.
  intros Hb. unfold StartBlock, deref. rewrite Hb. simpl.
  unfold InstructionSequence.AddInstruction, deref. simpl.
  rewrite list_lookup_middle by reflexivity. simpl.
  rewrite length_app, <- !app_assoc. simpl. now rewrite Nat.add_1_r.
Qed.



(** X4. A call of [AddInstruction] does not move an instruction to another
    block: [GetBasicBlock] of every index that was stored stays what it
    was.  When the instruction added is no block start, both new indices
    belong to the block of the last instruction stored before. *)
Theorem AddInstruction_stays_in_block
    (s s' : InstructionSequence.t) (instr : InstructionPtr) (block : BasicBlockPtr)
    (index : Z) :
  InstructionSequence.AddInstruction instr block s = Ok (index, s') ->
  pointers_valid s ->
  Z.of_nat (length (InstructionSequence.instructions_ s)) + 1 <= kMaxInt ->
  let n := Z.of_nat (length (InstructionSequence.instructions_ s)) in
  (forall j, j < n ->
     InstructionSequence.GetBasicBlock j s' = InstructionSequence.GetBasicBlock j s)
  /\ (points_to_block_start (InstructionSequence.zone s) instr = false ->
      n <= index <= n + 1
      /\ InstructionSequence.GetBasicBlock n s'
         = InstructionSequence.GetBasicBlock (n - 1) s
      /\ InstructionSequence.GetBasicBlock (n + 1) s'
         = InstructionSequence.GetBasicBlock (n - 1) s).
Proof.
  intros Hadd Hvalid Hsize n.
  pose proof (AddInstruction_pointers_valid _ _ _ _ _ Hvalid Hadd) as Hvalid'.
  destruct (AddInstruction_index _ _ _ _ _ Hadd Hsize)
    as (i & Hinstr & Hindex & Hlen & _).
  destruct (AddInstruction_block_start_at _ _ _ _ _ Hadd Hvalid Hsize)
    as (i0 & Hinstr0 & Hold & Hnew & Hgap).
  assert (i0 = i) as -> by congruence.
  assert (Hkeep : forall j, j < n ->
            InstructionSequence.GetBasicBlock j s'
            = InstructionSequence.GetBasicBlock j s).
  { intros j Hj. destruct (Z_lt_dec j 0) as [Hneg | Hpos].
    - now rewrite !GetBasicBlock_negative by assumption.
    - apply (GetBasicBlock_ext s s' (Z.to_nat (j + 1))); auto; try lia.
      intros k Hk. apply Hold. lia. }
  split; [exact Hkeep |]. intros Hplain.
  unfold points_to_block_start in Hplain. rewrite Hinstr in Hplain.
  unfold Instruction.IsBlockStart in Hplain.
  assert (Hn : block_start_at s' (Z.to_nat n) = None
               /\ block_start_at s' (Z.to_nat (n + 1)) = None).
  { subst n. rewrite Hindex in Hnew. revert Hnew Hgap.
    destruct (Instruction.IsControl i); intros Hnew Hgap.
    - rewrite Nat.add_0_r in Hgap. rewrite Nat2Z.id. split; [exact Hgap |].
      rewrite Hnew. now destruct (Instruction.class i).
    - replace (Z.to_nat (_ + 0)) with (length (InstructionSequence.instructions_ s))
        in Hnew by lia.
      rewrite Nat2Z.id.
      replace (Z.to_nat (_ + 1))
        with (length (InstructionSequence.instructions_ s) + 1)%nat by lia.
      split; [| exact Hgap]. rewrite Hnew. now destruct (Instruction.class i). }
  destruct Hn as [Hn Hn1].
  assert (Hat_n : InstructionSequence.GetBasicBlock n s'
                  = InstructionSequence.GetBasicBlock (n - 1) s).
  { rewrite GetBasicBlock_step by (assumption || lia). rewrite Hn. apply Hkeep. lia. }
  split; [subst n; rewrite Hindex; destruct (Instruction.IsControl i); lia |].
  split; [exact Hat_n |].
  rewrite GetBasicBlock_step by (assumption || lia). rewrite Hn1.
  replace (n + 1 - 1) with n by lia. exact Hat_n.
Qed.

Lemma AddInstruction_stays_in_block_witness :
  exists s',
    InstructionSequence.AddInstruction 0 5 sample_code = Ok (8, s')
    /\ InstructionSequence.GetBasicBlock 8 s' = Ok 5%nat
    /\ InstructionSequence.GetBasicBlock 9 s' = Ok 5%nat.
Proof.
  eexists. split; [reflexivity |].
  pose proof (AddInstruction_stays_in_block sample_code _ 0 5 8 eq_refl
                (pointers_valid_forallb sample_code eq_refl)
                ltac:(vm_compute; discriminate)) as [_ H].
  destruct (H eq_refl) as (_ & H8 & H9). split; [exact H8 | exact H9].
Defined.

Lemma addable_app (z : Zone.t) (more : list Instruction.t) (pms : list PointerMap.t)
                  (instrs : list InstructionPtr) :
  addable z instrs ->
  addable (Zone.Build (Zone.instructions z ++ more) pms) instrs.
Proof.
  induction instrs as [| instr rest IH]; intros Hok; [exact I |].
  destruct Hok as [(i & Hinstr & Hmap) Hrest]. split; [| now apply IH].
  exists i. split; [| exact Hmap]. simpl. now apply lookup_app_l_Some.
Qed.

Lemma AddInstructions_block_starts (block : BasicBlockPtr) (instrs : list InstructionPtr) :
  forall (s s' : InstructionSequence.t) (indices : list Z),
    pointers_valid s ->
    AddInstructions instrs block s = Ok (indices, s') ->
    Z.of_nat (length (InstructionSequence.instructions_ s) + 2 * length instrs)
    <= kMaxInt ->
    (forall p, p ∈ instrs ->
       exists i, Zone.instructions (InstructionSequence.zone s) !! p = Some i
                 /\ Instruction.IsBlockStart i = false) ->
    pointers_valid s'
    /\ length (InstructionSequence.instructions_ s')
       = (length (InstructionSequence.instructions_ s) + 2 * length instrs)%nat
    /\ (forall j, (j < length (InstructionSequence.instructions_ s))%nat ->
          block_start_at s' j = block_start_at s j)
    /\ (forall j, (length (InstructionSequence.instructions_ s) <= j
                   < length (InstructionSequence.instructions_ s) + 2 * length instrs)%nat ->
          block_start_at s' j = None).
Proof.
  induction instrs as [| instr rest IH]; intros s s' indices Hvalid Hrun Hsize Hplain.
  - simpl in Hrun. injection Hrun as _ <-. simpl.
    split; [exact Hvalid |]. split; [lia |]. split; [auto |]. intros j Hj. lia.
  - simpl in Hrun, Hsize.
    destruct (InstructionSequence.AddInstruction instr block s)
      as [[index s1] | |] eqn:Hadd; simpl in Hrun; try discriminate.
    destruct (AddInstructions rest block s1) as [[indices' s2] | |] eqn:Hrest;
      simpl in Hrun; try discriminate.
    injection Hrun as _ <-.
    pose proof (AddInstruction_pointers_valid _ _ _ _ _ Hvalid Hadd) as Hvalid1.
    pose proof (AddInstruction_zone_grown _ _ _ _ _ Hadd) as Hgrown.
    destruct (AddInstruction_index _ _ _ _ _ Hadd ltac:(lia))
      as (i & Hinstr & Hindex & Hlen1 & _).
    destruct (AddInstruction_block_start_at _ _ _ _ _ Hadd Hvalid ltac:(lia))
      as (i0 & Hinstr0 & Hold & Hnew & Hgap).
    assert (i0 = i) as -> by congruence.
    destruct (Hplain instr ltac:(left)) as (i1 & Hinstr1 & Hnot).
    assert (i1 = i) as -> by congruence.
    assert (Hclass : match Instruction.class i with
                     | Instruction.BlockStart _ b => Some b
                     | _ => None
                     end = None).
    { unfold Instruction.IsBlockStart in Hnot. now destruct (Instruction.class i). }
    rewrite Hclass in Hnew.
    destruct (IH s1 s2 indices' Hvalid1 Hrest) as (Hvalid2 & Hlen2 & Hold2 & Hnew2).
    { rewrite Hlen1. lia. }
    { intros p Hp. destruct (Hplain p ltac:(now right)) as (ip & Hip & Hnotp).
      destruct (zone_grown_class _ _ _ _ Hgrown Hip) as (ip' & Hip' & Hcl & _).
      exists ip'. split; [exact Hip' |].
      unfold Instruction.IsBlockStart in *. now rewrite Hcl. }
    split; [exact Hvalid2 |]. split; [rewrite Hlen2, Hlen1; cbn [length]; lia |]. split.
    + intros j Hj. rewrite Hold2 by lia. now apply Hold.
    + intros j Hj. rewrite Hlen1 in *. cbn [length] in Hj.
      destruct (decide (j < S (S (length (InstructionSequence.instructions_ s))))%nat)
        as [Hlt | Hge]; [| apply Hnew2; lia].
      rewrite Hold2 by lia.
      rewrite Hindex in Hnew. revert Hnew Hgap.
      destruct (Instruction.IsControl i); intros Hnew Hgap.
      * destruct (decide (j = length (InstructionSequence.instructions_ s))) as [-> | Hne].
        -- now rewrite Nat.add_0_r in Hgap.
        -- replace j with (Z.to_nat (Z.of_nat (length (InstructionSequence.instructions_ s)) + 1))
             by lia. exact Hnew.
      * destruct (decide (j = length (InstructionSequence.instructions_ s))) as [-> | Hne].
        -- replace (Z.to_nat (_ + 0)) with (length (InstructionSequence.instructions_ s))
             in Hnew by lia. exact Hnew.
        -- replace j with (length (InstructionSequence.instructions_ s) + 1)%nat by lia.
           exact Hgap.
Qed.

(** X5. A block that is started, filled with instructions that are no
    block starts and ended: the three steps return; the block's code range
    starts at the old size [n] of the sequence and ends at the new size, so
    [first_instruction_index] is [n] and [last_instruction_index] the last
    index stored; [GetBasicBlock] of every index of the range is the block,
    and [GetBasicBlock] of every earlier index is what it was. *)
Theorem block_code_range
    (block : BasicBlockPtr) (blocks : list BasicBlock.t)
    (s : InstructionSequence.t) (b : BasicBlock.t) (instrs : list InstructionPtr) :
  pointers_valid s ->
  blocks !! block = Some b ->
  addable (InstructionSequence.zone s) instrs ->
  (forall p, p ∈ instrs -> points_to_block_start (InstructionSequence.zone s) p = false) ->
  Z.of_nat (length (InstructionSequence.instructions_ s) + 2 + 2 * length instrs)
  <= kMaxInt ->
  let n := Z.of_nat (length (InstructionSequence.instructions_ s)) in
  let m := Z.of_nat (length instrs) in
  exists blocks1 s1 indices s2 blocks2 b2,
    StartBlock block blocks s = Ok (blocks1, s1)
    /\ AddInstructions instrs block s1 = Ok (indices, s2)
    /\ EndBlock block blocks1 s2 = Ok blocks2
    /\ blocks2 !! block = Some b2
    /\ Z.of_nat (length (InstructionSequence.instructions_ s2)) = n + 2 + 2 * m
    /\ BasicBlock.first_instruction_index b2 = Ok n
    /\ BasicBlock.last_instruction_index b2 = Ok (n + 1 + 2 * m)
    /\ (forall j, n <= j <= n + 1 + 2 * m ->
          InstructionSequence.GetBasicBlock j s2 = Ok block)
    /\ (forall j, j < n ->
          InstructionSequence.GetBasicBlock j s2 = InstructionSequence.GetBasicBlock j s).
Proof.
  intros Hvalid Hb Hok Hplain Hsize n m.
  pose proof (lookup_lt_Some _ _ _ Hb) as Hblock.
  pose proof (StartBlock_effect block blocks s b Hb) as Hstart.
  rewrite static_cast_int_small in Hstart by lia.
  set (blocks1 := <[block := _]> blocks) in Hstart.
  set (s1 := InstructionSequence.set_instructions _ _) in Hstart.
  assert (Hlen1 : length (InstructionSequence.instructions_ s1)
                  = S (S (length (InstructionSequence.instructions_ s)))).
  { subst s1. simpl. rewrite length_app. simpl. lia. }
  assert (Hvalid1 : pointers_valid s1).
  { intros j p Hp. subst s1. simpl in *. rewrite length_app. simpl.
    apply lookup_app_Some in Hp. destruct Hp as [Hp | [_ Hp]].
    - apply Hvalid in Hp. lia.
    - apply list_elem_of_lookup_2 in Hp.
      repeat (apply elem_of_cons in Hp; destruct Hp as [-> | Hp]); try lia.
      now apply not_elem_of_nil in Hp. }
  assert (Hstart_at : block_start_at s1 (length (InstructionSequence.instructions_ s))
                      = Some block).
  { unfold block_start_at, stored_at. subst s1. simpl.
    rewrite list_lookup_middle by reflexivity.
    now rewrite list_lookup_middle by reflexivity. }
  assert (Hgap_at : block_start_at s1 (S (length (InstructionSequence.instructions_ s)))
                    = None).
  { unfold block_start_at, stored_at. subst s1. simpl.
    rewrite lookup_app_r by lia. replace (S _ - _)%nat with 1%nat by lia. simpl.
    rewrite lookup_app_r by lia. replace (S _ - _)%nat with 1%nat by lia. reflexivity. }
  assert (Hold1 : forall j, (j < length (InstructionSequence.instructions_ s))%nat ->
                            block_start_at s1 j = block_start_at s j).
  { intros j Hj. unfold block_start_at, stored_at. subst s1. simpl.
    rewrite lookup_app_l by lia.
    destruct (InstructionSequence.instructions_ s !! j) as [p |] eqn:Hp; [| reflexivity].
    apply Hvalid in Hp. now rewrite lookup_app_l by lia. }
  assert (Hok1 : addable (InstructionSequence.zone s1) instrs).
  { subst s1. simpl. now apply addable_app. }
  destruct (AddInstructions_layout_from block instrs s1 Hok1 ltac:(rewrite Hlen1; lia))
    as (indices & s2 & Hrun & _).
  destruct (AddInstructions_block_starts block instrs s1 s2 indices Hvalid1 Hrun
              ltac:(rewrite Hlen1; lia))
    as (Hvalid2 & Hlen2 & Hold2 & Hnew2).
  { intros p Hp. specialize (Hplain p Hp). unfold points_to_block_start in Hplain.
    assert (Hin : exists i, Zone.instructions (InstructionSequence.zone s) !! p = Some i).
    { clear -Hok Hp. induction instrs as [| r rest IH]; [now apply not_elem_of_nil in Hp |].
      destruct Hok as [(ir & Hr & _) Hrest].
      apply elem_of_cons in Hp. destruct Hp as [-> | Hp]; eauto. }
    destruct Hin as (i & Hi). rewrite Hi in Hplain. exists i. split; [| exact Hplain].
    subst s1. simpl. now apply lookup_app_l_Some. }
  rewrite Hlen1 in Hlen2, Hnew2.
  set (end_ := n + 2 + 2 * m).
  assert (Hend : static_cast_int (length (InstructionSequence.instructions_ s2)) = end_).
  { rewrite static_cast_int_small by lia. subst end_ n m. lia. }
  exists blocks1, s1, indices, s2,
         (<[block := set_code_end end_ (set_code_start n b)]> blocks1),
         (set_code_end end_ (set_code_start n b)).
  split; [exact Hstart |]. split; [exact Hrun |].
  assert (Hb1 : blocks1 !! block = Some (set_code_start n b)).
  { subst blocks1. now apply list_lookup_insert_eq. }
  split.
  { unfold EndBlock, deref. rewrite Hb1, Hend. simpl.
    destruct (Z.geb_spec n 0) as [_ | H]; [| lia].
    destruct (Z.ltb_spec n end_) as [_ | H]; [| subst end_; lia]. reflexivity. }
  split; [apply list_lookup_insert_eq; subst blocks1; now rewrite length_insert |].
  split; [subst end_ n m; lia |].
  split.
  { unfold BasicBlock.first_instruction_index. simpl.
    destruct (Z.geb_spec n 0) as [_ | H]; [| lia].
    destruct (Z.gtb_spec end_ 0) as [_ | H]; [| subst end_; lia].
    destruct (Z.geb_spec end_ n) as [_ | H]; [| subst end_; lia]. reflexivity. }
  split.
  { unfold BasicBlock.last_instruction_index. simpl.
    destruct (Z.geb_spec n 0) as [_ | H]; [| lia].
    destruct (Z.gtb_spec end_ 0) as [_ | H]; [| subst end_; lia].
    destruct (Z.geb_spec end_ n) as [_ | H]; [| subst end_; lia].
    simpl. f_equal. subst end_. lia. }
  split.
  - intros j Hj.
    replace j with (Z.of_nat (length (InstructionSequence.instructions_ s)
                              + Z.to_nat (j - n))) by lia.
    apply GetBasicBlock_in_block; auto.
    + rewrite Hold2 by lia. exact Hstart_at.
    + lia.
    + intros k Hk.
      destruct (decide (k = S (length (InstructionSequence.instructions_ s)))) as [-> | Hne].
      * rewrite Hold2 by lia. exact Hgap_at.
      * apply Hnew2. lia.
  - intros j Hj. destruct (Z_lt_dec j 0) as [Hneg | Hpos].
    + now rewrite !GetBasicBlock_negative by assumption.
    + apply (GetBasicBlock_ext s s2 (Z.to_nat (j + 1))); auto; try lia.
      intros k Hk. rewrite Hold2 by lia. apply Hold1. lia.
Qed.

Lemma block_code_range_witness :
  exists blocks1 s1 indices s2 blocks2 b2,
    StartBlock 0 [sample_block 0 (-1)] sample_sequence = Ok (blocks1, s1)
    /\ AddInstructions [0; 1; 2]%nat 0 s1 = Ok (indices, s2)
    /\ EndBlock 0 blocks1 s2 = Ok blocks2
    /\ blocks2 !! 0%nat = Some b2
    /\ Z.of_nat (length (InstructionSequence.instructions_ s2)) = 0 + 2 + 2 * 3
    /\ BasicBlock.first_instruction_index b2 = Ok 0
    /\ BasicBlock.last_instruction_index b2 = Ok (0 + 1 + 2 * 3)
    /\ (forall j, 0 <= j <= 0 + 1 + 2 * 3 ->
          InstructionSequence.GetBasicBlock j s2 = Ok 0%nat)
    /\ (forall j, j < 0 ->
          InstructionSequence.GetBasicBlock j s2
          = InstructionSequence.GetBasicBlock j sample_sequence).
Proof.
  apply (block_code_range 0 [sample_block 0 (-1)] sample_sequence (sample_block 0 (-1))
           [0; 1; 2]%nat).
  - apply pointers_valid_New.
  - reflexivity.
  - simpl. repeat split; eexists; (split; [reflexivity |]); try discriminate.
    intros _. split; [reflexivity |].
    intros Hin. apply list_elem_of_singleton in Hin. discriminate.
  - intros p Hp.
    repeat (apply elem_of_cons in Hp; destruct Hp as [-> | Hp]); try reflexivity.
    now apply not_elem_of_nil in Hp.
  - vm_compute. discriminate.
Defined.

(** X6. [EndBlock(block)] returns exactly when the start of the block's
    code is an index of the sequence; it then records the size of the
    sequence as the end, after which [first_instruction_index] and
    [last_instruction_index] pass their checks and the first index is not
    above the last.  Otherwise, as for a block that was never started on a
    sequence that is still empty, it fails its assertion. *)
Theorem EndBlock_checks_code_start
    (block : BasicBlockPtr) (blocks : list BasicBlock.t)
    (s : InstructionSequence.t) (b : BasicBlock.t) :
  blocks !! block = Some b ->
  Z.of_nat (length (InstructionSequence.instructions_ s)) <= kMaxInt ->
  let size := Z.of_nat (length (InstructionSequence.instructions_ s)) in
  (0 <= BasicBlock.code_start_ b < size ->
   exists b',
     EndBlock block blocks s = Ok (<[block := b']> blocks)
     /\ BasicBlock.code_start_ b' = BasicBlock.code_start_ b
     /\ BasicBlock.code_end_ b' = size
     /\ BasicBlock.first_instruction_index b' = Ok (BasicBlock.code_start_ b)
     /\ BasicBlock.last_instruction_index b' = Ok (size - 1)
     /\ BasicBlock.code_start_ b <= size - 1)
  /\ (~ 0 <= BasicBlock.code_start_ b < size ->
      EndBlock block blocks s = AssertionFailed).
Proof.
  intros Hb Hsize size. unfold EndBlock, deref. rewrite Hb.
  rewrite static_cast_int_small by exact Hsize. fold size. simpl. split.
  - intros Hstart. exists (set_code_end size b).
    destruct (Z.geb_spec (BasicBlock.code_start_ b) 0) as [_ | H]; [| lia].
    destruct (Z.ltb_spec (BasicBlock.code_start_ b) size) as [_ | H]; [| lia].
    simpl. split; [reflexivity |]. split; [reflexivity |]. split; [reflexivity |].
    unfold BasicBlock.first_instruction_index, BasicBlock.last_instruction_index. simpl.
    destruct (Z.geb_spec (BasicBlock.code_start_ b) 0) as [_ | H]; [| lia].
    destruct (Z.gtb_spec size 0) as [_ | H]; [| lia].
    destruct (Z.geb_spec size (BasicBlock.code_start_ b)) as [_ | H]; [| lia].
    simpl. split; [reflexivity |]. split; [reflexivity | lia].
  - intros Hstart.
    destruct (Z.geb_spec (BasicBlock.code_start_ b) 0) as [H0 | H0];
      destruct (Z.ltb_spec (BasicBlock.code_start_ b) size) as [H1 | H1];
      simpl; try reflexivity.
    exfalso. apply Hstart. lia.
Qed.

Lemma EndBlock_checks_code_start_witness :
  EndBlock 0 [sample_block 0 (-1)] sample_code = AssertionFailed
  /\ exists b',
       EndBlock 0 [set_code_start 0 (sample_block 0 (-1))] sample_code
       = Ok (<[0%nat := b']> [set_code_start 0 (sample_block 0 (-1))])
       /\ BasicBlock.code_start_ b' = 0
       /\ BasicBlock.code_end_ b' = 8
       /\ BasicBlock.first_instruction_index b' = Ok 0
       /\ BasicBlock.last_instruction_index b' = Ok (8 - 1)
       /\ 0 <= 8 - 1.
Proof.
  split.
  - apply (proj2 (EndBlock_checks_code_start 0 [sample_block 0 (-1)] sample_code
                    (sample_block 0 (-1)) eq_refl ltac:(vm_compute; discriminate))).
    simpl. lia.
  - apply (proj1 (EndBlock_checks_code_start 0 [set_code_start 0 (sample_block 0 (-1))]
                    sample_code (set_code_start 0 (sample_block 0 (-1))) eq_refl
                    ltac:(vm_compute; discriminate))).
    simpl. lia.
Defined.

(** ** The table of frame state descriptors *)

(** X7. [GetFrameStateDescriptor(id)] is defined exactly for the ids from 0
    up to, and not including, [GetFrameStateDescriptorCount()]: there it is
    the entry of the table at [id], elsewhere (negative, or at or past the
    count) the vector is read out of range. *)
Theorem GetFrameStateDescriptor_defined_below_count
    (s : InstructionSequence.t) (id : InstructionSequence.StateId) :
  Z.of_nat (length (InstructionSequence.deoptimization_entries_ s)) <= kMaxInt ->
  (0 <= InstructionSequence.ToInt id < InstructionSequence.GetFrameStateDescriptorCount s ->
   exists d,
     InstructionSequence.GetFrameStateDescriptor id s = Ok d
     /\ InstructionSequence.deoptimization_entries_ s
        !! Z.to_nat (InstructionSequence.ToInt id) = Some d)
  /\ (~ 0 <= InstructionSequence.ToInt id
           < InstructionSequence.GetFrameStateDescriptorCount s ->
      InstructionSequence.GetFrameStateDescriptor id s = Undefined).
Proof.
  intros Hsize.
  unfold InstructionSequence.GetFrameStateDescriptorCount,
         InstructionSequence.GetFrameStateDescriptor, deref.
  rewrite static_cast_int_small by exact Hsize. split.
  - intros Hid.
    destruct (Z.ltb_spec (InstructionSequence.ToInt id) 0) as [H | _]; [lia |].
    destruct (InstructionSequence.deoptimization_entries_ s
              !! Z.to_nat (InstructionSequence.ToInt id)) as [d |] eqn:Hd.
    + eauto.
    + apply lookup_ge_None in Hd. lia.
  - intros Hid.
    destruct (Z.ltb_spec (InstructionSequence.ToInt id) 0) as [H | H]; [reflexivity |].
    destruct (InstructionSequence.deoptimization_entries_ s
              !! Z.to_nat (InstructionSequence.ToInt id)) as [d |] eqn:Hd;
      [| reflexivity].
    apply lookup_lt_Some in Hd. lia.
Qed.

Lemma GetFrameStateDescriptor_defined_below_count_witness :
  InstructionSequence.GetFrameStateDescriptor (InstructionSequence.FromInt 0)
    sample_sequence = Undefined.
Proof.
  apply (proj2 (GetFrameStateDescriptor_defined_below_count sample_sequence
                  (InstructionSequence.FromInt 0) ltac:(vm_compute; discriminate))).
  vm_compute. intros [_ H]. discriminate.
Defined.

(** X8. One [AddFrameStateDescriptor(d)] on any sequence whose table has
    room for an [int] id: the id returned is the count before the call, the
    count grows by one, the new id reads back [d], and every id that read
    back a descriptor before the call still reads back the same one. *)
Theorem AddFrameStateDescriptor_appends
    (s : InstructionSequence.t) (d : FrameStateDescriptorPtr) :
  Z.of_nat (length (InstructionSequence.deoptimization_entries_ s)) < kMaxInt ->
  exists id s',
    InstructionSequence.AddFrameStateDescriptor d s = (id, s')
    /\ InstructionSequence.ToInt id = InstructionSequence.GetFrameStateDescriptorCount s
    /\ InstructionSequence.GetFrameStateDescriptorCount s'
       = InstructionSequence.GetFrameStateDescriptorCount s + 1
    /\ InstructionSequence.GetFrameStateDescriptor id s' = Ok d
    /\ forall id0 d0,
         InstructionSequence.GetFrameStateDescriptor id0 s = Ok d0 ->
         InstructionSequence.GetFrameStateDescriptor id0 s' = Ok d0.
Proof.
  intros Hsize. eexists. eexists. split; [reflexivity |].
  unfold InstructionSequence.GetFrameStateDescriptorCount,
         InstructionSequence.GetFrameStateDescriptor, deref. simpl.
  rewrite length_app. simpl.
  rewrite !static_cast_int_small by lia. repeat apply conj.
  - reflexivity.
  - lia.
  - destruct (Z.ltb_spec (Z.of_nat (length (InstructionSequence.deoptimization_entries_ s))) 0)
      as [H | _]; [lia |].
    now rewrite Nat2Z.id, lookup_app_r, Nat.sub_diag by lia.
  - intros id0 d0.
    destruct (InstructionSequence.ToInt id0 <? 0); [discriminate |].
    destruct (InstructionSequence.deoptimization_entries_ s
              !! Z.to_nat (InstructionSequence.ToInt id0)) as [d1 |] eqn:Hd;
      [| discriminate].
    intros [= <-]. now rewrite (lookup_app_l_Some _ _ _ _ Hd).
Qed.

Lemma AddFrameStateDescriptor_appends_witness :
  exists id s',
    InstructionSequence.AddFrameStateDescriptor 7 sample_sequence = (id, s')
    /\ InstructionSequence.ToInt id
       = InstructionSequence.GetFrameStateDescriptorCount sample_sequence
    /\ InstructionSequence.GetFrameStateDescriptorCount s'
       = InstructionSequence.GetFrameStateDescriptorCount sample_sequence + 1
    /\ InstructionSequence.GetFrameStateDescriptor id s' = Ok 7%nat
    /\ forall id0 d0,
         InstructionSequence.GetFrameStateDescriptor id0 sample_sequence = Ok d0 ->
         InstructionSequence.GetFrameStateDescriptor id0 s' = Ok d0.
Proof.
  apply (AddFrameStateDescriptor_appends sample_sequence 7).
  vm_compute. reflexivity.
Defined.

(** ** Virtual registers, again *)

Lemma distinct_le_app (l l' : list Z) : (distinct l <= distinct (l ++ l'))%nat.
Proof.
  unfold distinct. apply submseteq_length, NoDup_submseteq.
  - apply NoDup_remove_dups.
  - intros x. rewrite !elem_of_remove_dups, elem_of_app. tauto.
Qed.

(** X9. After calls of [GetVirtualRegister] on a new sequence, for nodes
    of the graph: the counter of virtual registers is the number of
    distinct nodes that were called, every id returned is at least 0 and
    below the counter, and two calls return the same id only when they are
    for the same node. *)
Theorem GetVirtualRegister_injective_and_bounded
    (z : Zone.t) (NodeCount : Z) (ids : list Z) :
  0 <= NodeCount <= kMaxInt ->
  Forall (fun id => 0 <= id < NodeCount) ids ->
  exists vregs s',
    GetVirtualRegisters ids (InstructionSequence.New z NodeCount) = Ok (vregs, s')
    /\ InstructionSequence.next_virtual_register_ s' = Z.of_nat (distinct ids)
    /\ (forall k r, vregs !! k = Some r ->
          0 <= r < InstructionSequence.next_virtual_register_ s')
    /\ (forall i j id id' r,
          ids !! i = Some id -> ids !! j = Some id' ->
          vregs !! i = Some r -> vregs !! j = Some r ->
          id = id').
Proof.
  intros HN Hrange.
  destruct (GetVirtualRegisters_run NodeCount HN ids [] _
              (vreg_invariant_New z NodeCount) Hrange)
    as (vregs & s' & Hrun & Hinv & Hlen & Hmap & Hfirsts & _).
  simpl in Hinv, Hfirsts. destruct Hinv as (_ & _ & Hnext & _).
  (* the id of a node is the number of distinct nodes before its first call *)
  assert (Hid : forall k id r, ids !! k = Some id -> vregs !! k = Some r ->
            exists l1 l2, ids = l1 ++ id :: l2 /\ (id ∉ l1)
                          /\ r = Z.of_nat (distinct l1)).
  { intros k id r Hk Hr.
    destruct (list_elem_of_split_l ids id (list_elem_of_lookup_2 _ _ _ Hk))
      as (l1 & l2 & Hsplit & Hnew).
    exists l1, l2. split; [exact Hsplit |]. split; [exact Hnew |].
    assert (Hfirst : ids !! length l1 = Some id)
      by (rewrite Hsplit; now apply list_lookup_middle).
    destruct (Hmap k id Hk) as (rk & Hrk & Hmk & _).
    destruct (Hmap (length l1) id Hfirst) as (r1 & Hr1 & Hm1 & _).
    assert (Htake : take (length l1) ids = l1)
      by (rewrite Hsplit; now apply take_app_length).
    specialize (Hfirsts (length l1) id Hfirst). rewrite Htake in Hfirsts.
    specialize (Hfirsts Hnew). congruence. }
  exists vregs, s'. split; [exact Hrun |]. split; [exact Hnext |]. split.
  - intros k r Hr.
    assert (Hk : exists id, ids !! k = Some id).
    { apply lookup_lt_is_Some. rewrite <- Hlen. now apply lookup_lt_Some in Hr. }
    destruct Hk as (id & Hk).
    destruct (Hid k id r Hk Hr) as (l1 & l2 & Hsplit & Hnew & ->).
    rewrite Hnext, Hsplit. split; [lia |].
    pose proof (distinct_le_app (l1 ++ [id]) l2) as Hle.
    rewrite <- app_assoc in Hle. simpl in Hle.
    rewrite distinct_app_new in Hle by exact Hnew. lia.
  - intros i j id id' r Hi Hj Hri Hrj.
    destruct (Hid i id r Hi Hri) as (l1 & l2 & Hsplit & Hnew & Hr).
    destruct (Hid j id' r Hj Hrj) as (l1' & l2' & Hsplit' & Hnew' & Hr').
    destruct (decide (id = id')) as [Heq | Hne]; [exact Heq | exfalso].
    (* one of the two first calls comes before the other *)
    assert (Hlt : forall (a b : Z) (la la2 lb lb2 : list Z),
               la ++ a :: la2 = lb ++ b :: lb2 -> a <> b -> a ∉ la ->
               (length la < length lb)%nat ->
               (distinct la < distinct lb)%nat).
    { intros a b la la2 lb lb2 Heq Hab Ha Hlen'.
      assert (Hpre : lb = (la ++ [a]) ++ drop (S (length la)) lb).
      { rewrite <- (take_drop (S (length la)) lb) at 1. f_equal.
        assert (Ht : take (S (length la)) (lb ++ b :: lb2) = take (S (length la)) lb)
          by (apply take_app_le; lia).
        rewrite <- Ht, <- Heq.
        rewrite (take_S_r _ _ a) by (now apply list_lookup_middle).
        now rewrite take_app_length. }
      rewrite Hpre.
      pose proof (distinct_le_app (la ++ [a]) (drop (S (length la)) lb)) as Hle.
      rewrite distinct_app_new in Hle by exact Ha. lia. }
    destruct (Nat.lt_trichotomy (length l1) (length l1')) as [Hc | [Hc | Hc]].
    + pose proof (Hlt id id' l1 l2 l1' l2' ltac:(congruence) Hne Hnew Hc). lia.
    + assert (Hsame : ids !! length l1 = Some id)
        by (rewrite Hsplit; now apply list_lookup_middle).
      assert (Hsame' : ids !! length l1 = Some id')
        by (rewrite Hc, Hsplit'; now apply list_lookup_middle).
      congruence.
    + pose proof (Hlt id' id l1' l2' l1 l2 ltac:(congruence) ltac:(congruence) Hnew' Hc).
      lia.
Qed.

Lemma GetVirtualRegister_injective_and_bounded_witness :
  exists vregs s',
    GetVirtualRegisters [2; 0; 2; 3; 0] (InstructionSequence.New sample_zone 4)
    = Ok (vregs, s')
    /\ InstructionSequence.next_virtual_register_ s'
       = Z.of_nat (distinct [2; 0; 2; 3; 0])
    /\ (forall k r, vregs !! k = Some r ->
          0 <= r < InstructionSequence.next_virtual_register_ s')
    /\ (forall i j id id' r,
          [2; 0; 2; 3; 0] !! i = Some id -> [2; 0; 2; 3; 0] !! j = Some id' ->
          vregs !! i = Some r -> vregs !! j = Some r ->
          id = id').
Proof.
  apply (GetVirtualRegister_injective_and_bounded sample_zone 4 [2; 0; 2; 3; 0]).
  - vm_compute. split; discriminate.
  - repeat constructor; lia.
Defined.

(** ** Pointer maps, again *)

Lemma without_app (op : Operand) (l1 l2 : list Operand) :
  without op (l1 ++ l2) = without op l1 ++ without op l2.
Proof. unfold without. apply filter_app. Qed.

Lemma RemovePointer_unguarded (op : Operand) (pm : PointerMap.t) :
  ~ negative_stack_slot op -> ~ double_typed op ->
  PointerMap.RemovePointer op pm
  = Ok (PointerMap.set_pointer_operands
          (without op (PointerMap.pointer_operands_ pm)) pm).
Proof.
  intros Ha Hd. apply IsArgument_false in Ha. apply NotDouble_true in Hd.
  unfold PointerMap.RemovePointer. rewrite Ha, Hd. simpl.
  now rewrite RemovePointer_loop_without.
Qed.

(** X10. Recording an operand as a pointer and then removing it gives what
    removing it alone gives; when the operand was not in the map, the map
    is back as it was.  This holds for every operand that is not
    double-typed, an argument slot being left out by both calls. *)
Theorem RemovePointer_undoes_RecordPointer (op : Operand) (pm : PointerMap.t) :
  ~ double_typed op ->
  (do pm1 <- PointerMap.RecordPointer op pm; PointerMap.RemovePointer op pm1)
  = PointerMap.RemovePointer op pm
  /\ (~ In op (PointerMap.pointer_operands_ pm) ->
      (do pm1 <- PointerMap.RecordPointer op pm; PointerMap.RemovePointer op pm1)
      = Ok pm).
Proof.
  intros Hd.
  assert (Hsame : (do pm1 <- PointerMap.RecordPointer op pm;
                   PointerMap.RemovePointer op pm1)
                  = PointerMap.RemovePointer op pm).
  { destruct (PointerMap.IsArgument op) eqn:Harg.
    - apply IsArgument_true in Harg. now rewrite RecordPointer_argument.
    - apply IsArgument_false in Harg.
      rewrite RecordPointer_append by assumption. simpl.
      rewrite !RemovePointer_unguarded by assumption. simpl.
      rewrite without_app, without_cons_eq. unfold without at 2. simpl.
      rewrite app_nil_r. now destruct pm. }
  split; [exact Hsame |]. intros Habsent. rewrite Hsame.
  destruct (PointerMap.IsArgument op) eqn:Harg.
  - apply IsArgument_true in Harg. unfold PointerMap.RemovePointer.
    apply IsArgument_true in Harg. now rewrite Harg.
  - apply IsArgument_false in Harg. rewrite RemovePointer_unguarded by assumption.
    now rewrite without_absent, set_pointer_operands_same.
Qed.

Lemma RemovePointer_undoes_RecordPointer_witness :
  (do pm1 <- PointerMap.RecordPointer (Register 1)
               (PointerMap.Build [StackSlot 0] [Register 1] (Some 4));
   PointerMap.RemovePointer (Register 1) pm1)
  = Ok (PointerMap.Build [StackSlot 0] [Register 1] (Some 4)).
Proof.
  apply (proj2 (RemovePointer_undoes_RecordPointer (Register 1)
                  (PointerMap.Build [StackSlot 0] [Register 1] (Some 4))
                  (Register_not_double 1))).
  simpl. intros [H | []]. discriminate.
Defined.

(** X11. When [RemovePointer(op)] returns for an operand that is no
    argument slot, [op] is not in the pointer operands any more, every
    other pointer operand is there as often as before, the untagged
    operands and the instruction position are untouched, and a second
    [RemovePointer(op)] changes nothing. *)
Theorem RemovePointer_removes_only_op (op : Operand) (pm pm' : PointerMap.t) :
  PointerMap.RemovePointer op pm = Ok pm' ->
  ~ negative_stack_slot op ->
  ~ In op (PointerMap.pointer_operands_ pm')
  /\ (forall e, e <> op ->
        count_occ InstructionOperand.t_eq_dec (PointerMap.pointer_operands_ pm') e
        = count_occ InstructionOperand.t_eq_dec (PointerMap.pointer_operands_ pm) e)
  /\ PointerMap.untagged_operands_ pm' = PointerMap.untagged_operands_ pm
  /\ PointerMap.instruction_position_ pm' = PointerMap.instruction_position_ pm
  /\ PointerMap.RemovePointer op pm' = Ok pm'.
Proof.
  intros Hremove Harg.
  assert (Hd : ~ double_typed op).
  { intros Hd. destruct (double_operand_fails_assertion op pm Hd) as (_ & _ & Hfail).
    congruence. }
  rewrite RemovePointer_unguarded in Hremove by assumption.
  injection Hremove as <-. simpl.
  assert (Hgone : ~ In op (without op (PointerMap.pointer_operands_ pm))).
  { intros Hin. apply without_elem in Hin. tauto. }
  split; [exact Hgone |]. split; [| split; [reflexivity | split; [reflexivity |]]].
  - intros e He. clear Hgone.
    induction (PointerMap.pointer_operands_ pm) as [| x l IH]; [reflexivity |].
    destruct (decide (x = op)) as [-> | Hx].
    + rewrite without_cons_eq. simpl.
      destruct (InstructionOperand.t_eq_dec op e); [congruence | exact IH].
    + rewrite without_cons_ne by exact Hx. simpl.
      destruct (InstructionOperand.t_eq_dec x e); now rewrite IH.
  - rewrite RemovePointer_unguarded by assumption. simpl.
    rewrite without_absent by exact Hgone. reflexivity.
Qed.

Lemma RemovePointer_removes_only_op_witness :
  ~ In (Register 1) [StackSlot 0; Register 2]
  /\ (forall e, e <> Register 1 ->
        count_occ InstructionOperand.t_eq_dec [StackSlot 0; Register 2] e
        = count_occ InstructionOperand.t_eq_dec
            [Register 1; StackSlot 0; Register 1; Register 2] e)
  /\ [Register 3] = [Register 3]
  /\ Some 4 = Some 4
  /\ PointerMap.RemovePointer (Register 1)
       (PointerMap.Build [StackSlot 0; Register 2] [Register 3] (Some 4))
     = Ok (PointerMap.Build [StackSlot 0; Register 2] [Register 3] (Some 4)).
Proof.
  apply (RemovePointer_removes_only_op (Register 1)
           (PointerMap.Build [Register 1; StackSlot 0; Register 1; Register 2]
                             [Register 3] (Some 4))
           (PointerMap.Build [StackSlot 0; Register 2] [Register 3] (Some 4))).
  - reflexivity.
  - apply Register_not_argument.
Defined.

(** ** Reference and double virtual registers *)

Lemma mark_calls_app (cs1 cs2 : list MarkCall) (v : VirtualRegisterSets.t) :
  mark_calls (cs1 ++ cs2) v = mark_calls cs2 (mark_calls cs1 v).
Proof. unfold mark_calls. apply fold_left_app. Qed.

(** X12. After any calls of [MarkAsReference] and [MarkAsDouble] on a new
    sequence, [IsReference(v)] holds exactly when one of the calls was
    [MarkAsReference(v)], and [IsDouble(v)] exactly when one was
    [MarkAsDouble(v)]: a mark is never taken back, and neither kind of mark
    has a say in the other. *)
Theorem marks_are_what_was_marked (cs : list MarkCall) (v : Z) :
  (VirtualRegisterSets.IsReference v (mark_calls cs VirtualRegisterSets.New) = true
   <-> In (CallMarkAsReference v) cs)
  /\ (VirtualRegisterSets.IsDouble v (mark_calls cs VirtualRegisterSets.New) = true
      <-> In (CallMarkAsDouble v) cs).
Proof.
  induction cs as [| c cs IH] using rev_ind.
  - unfold VirtualRegisterSets.IsReference, VirtualRegisterSets.IsDouble. simpl.
    rewrite !bool_decide_eq_true. split; split; try tauto; set_solver.
  - destruct IH as [IHr IHd]. rewrite mark_calls_app. simpl.
    unfold VirtualRegisterSets.IsReference, VirtualRegisterSets.IsDouble in *.
    rewrite !bool_decide_eq_true in *. rewrite !in_app_iff. simpl.
    destruct c as [r | r]; simpl; split.
    + rewrite elem_of_union, elem_of_singleton, IHr.
      split; [intros [-> | H]; auto | intros [H | [[= ->] | []]]; auto].
    + rewrite IHd. split; [auto | intros [H | [[=] | []]]; auto].
    + rewrite IHr. split; [auto | intros [H | [[=] | []]]; auto].
    + rewrite elem_of_union, elem_of_singleton, IHd.
      split; [intros [-> | H]; auto | intros [H | [[= ->] | []]]; auto].
Qed.

(** ** Block ids *)

Lemma wrap_int_mod (size_bits z : Z) :
  32 <= size_bits -> wrap_int (z mod 2 ^ size_bits) = wrap_int z.
Proof.
  intros Hbits. unfold wrap_int. f_equal.
  assert (Hdiv : (2 ^ 32 | 2 ^ size_bits)).
  { exists (2 ^ (size_bits - 32)). rewrite <- Z.pow_add_r by lia. f_equal. lia. }
  rewrite Z.add_mod by lia.
  rewrite (Z.mod_mod_divide z (2 ^ size_bits) (2 ^ 32) Hdiv).
  now rewrite <- Z.add_mod by lia.
Qed.

(** X13. Block ids and integers: an [int] made an id and read back as an
    [int] is the same [int], also when it is negative; a size made an id
    and read back as a size is the same size; but a size read back as an
    [int] is the same number only up to [INT_MAX], and a negative [int]
    read back as a size is [2 ^ size_bits] more. *)
Theorem BasicBlockId_round_trips (size_bits : Z) :
  32 <= size_bits ->
  (forall i, kMinInt <= i <= kMaxInt ->
     BasicBlockId.ToInt (BasicBlockId.FromInt size_bits i) = i)
  /\ (forall n, BasicBlockId.ToSize (BasicBlockId.FromSize n) = n)
  /\ (forall n, 0 <= n < 2 ^ size_bits ->
        BasicBlockId.ToInt (BasicBlockId.FromSize n) = n <-> n <= kMaxInt)
  /\ (forall i, kMinInt <= i < 0 ->
        BasicBlockId.ToSize (BasicBlockId.FromInt size_bits i) = 2 ^ size_bits + i).
Proof.
  intros Hbits.
  assert (Hpow : 2 ^ 32 <= 2 ^ size_bits) by (apply Z.pow_le_mono_r; lia).
  repeat apply conj.
  - intros i Hi. unfold BasicBlockId.ToInt, BasicBlockId.FromInt. simpl.
    unfold BasicBlockId.static_cast_size_t.
    rewrite wrap_int_mod by exact Hbits. now apply wrap_int_small.
  - reflexivity.
  - intros n Hn. unfold BasicBlockId.ToInt, BasicBlockId.FromSize. simpl. split.
    + intros Hsame. unfold wrap_int, kMaxInt in *.
      pose proof (Z.mod_pos_bound (n + 2 ^ 31) (2 ^ 32) ltac:(lia)). lia.
    + intros Hle. apply wrap_int_small. unfold kMinInt. lia.
  - intros i Hi. unfold BasicBlockId.ToSize, BasicBlockId.FromInt. simpl.
    unfold BasicBlockId.static_cast_size_t, kMinInt in *.
    symmetry. apply Z.mod_unique with (q := -1); lia.
Qed.

Lemma BasicBlockId_round_trips_witness :
  BasicBlockId.ToInt (BasicBlockId.FromInt 64 (-1)) = -1
  /\ BasicBlockId.ToSize (BasicBlockId.FromInt 64 (-1)) = 2 ^ 64 + -1.
Proof.
  split.
  - apply (proj1 (BasicBlockId_round_trips 64 ltac:(lia))). vm_compute.
    split; discriminate.
  - apply (proj2 (proj2 (proj2 (BasicBlockId_round_trips 64 ltac:(lia))))).
    vm_compute. split; [discriminate | reflexivity].
Defined.

(** ** Hashing pointers *)

Lemma coprime_pow2_9 (size_bits : Z) : 0 <= size_bits -> Z.gcd (2 ^ size_bits) 9 = 1.
Proof. intros Hbits. apply Z.coprime_pow_l; [exact Hbits | reflexivity]. Qed.

(** X14. [hash_value] of a pointer whose low three bits are 0 is nine times
    the pointer shifted right by three, in [size_t] arithmetic, and two
    such pointers with the same hash are the same pointer: on objects
    aligned to 8 bytes the hash has no collisions. *)
Theorem hash_value_pointer_aligned (size_bits : Z) (x y : Z) :
  3 <= size_bits ->
  0 <= x < 2 ^ size_bits -> 0 <= y < 2 ^ size_bits ->
  x mod 8 = 0 -> y mod 8 = 0 ->
  hash_value_pointer size_bits x = (9 * (x / 8)) mod 2 ^ size_bits
  /\ (hash_value_pointer size_bits x = hash_value_pointer size_bits y -> x = y).
Proof.
  intros Hbits Hx Hy Hax Hay.
  assert (Hform : forall v, v mod 8 = 0 ->
            hash_value_pointer size_bits v = (9 * (v / 8)) mod 2 ^ size_bits).
  { intros v Hv. unfold hash_value_pointer. rewrite Z.shiftr_div_pow2 by lia.
    change (2 ^ 3) with 8. f_equal.
    pose proof (Z.div_mod v 8 ltac:(lia)). lia. }
  split; [now apply Hform |].
  rewrite !Hform by assumption. intros Hhash.
  assert (Hpow : 2 ^ size_bits = 8 * 2 ^ (size_bits - 3)).
  { change 8 with (2 ^ 3). rewrite <- Z.pow_add_r by lia. f_equal. lia. }
  assert (Hpos : 0 < 2 ^ (size_bits - 3)) by (apply Z.pow_pos_nonneg; lia).
  pose proof (Z.div_mod x 8 ltac:(lia)) as Hdx.
  pose proof (Z.div_mod y 8 ltac:(lia)) as Hdy.
  assert (Hdiv : (2 ^ size_bits | 9 * (x / 8 - y / 8))).
  { replace (9 * (x / 8 - y / 8)) with (9 * (x / 8) - 9 * (y / 8)) by lia.
    apply Z.mod_divide; [lia |].
    rewrite Zminus_mod, Hhash, Z.sub_diag. apply Z.mod_0_l. lia. }
  apply Z.gauss in Hdiv; [| apply coprime_pow2_9; lia].
  destruct Hdiv as [q Hq].
  assert (q = 0) by nia.
  subst q. lia.
Qed.

Lemma hash_value_pointer_aligned_witness :
  hash_value_pointer 64 80 = (9 * (80 / 8)) mod 2 ^ 64
  /\ (hash_value_pointer 64 80 = hash_value_pointer 64 88 -> 80 = 88).
Proof.
  apply (hash_value_pointer_aligned 64 80 88); vm_compute;
    try reflexivity; try (split; [discriminate | reflexivity]).
  discriminate.
Defined.

(** ** Printing parallel moves *)

Lemma string_app_assoc (a b c : string) : (a +:+ b) +:+ c = a +:+ (b +:+ c).
Proof.
  induction a as [| x a IH]; [reflexivity |].
  change (String x ((a +:+ b) +:+ c) = String x (a +:+ (b +:+ c))). now rewrite IH.
Qed.

Lemma string_app_empty_r (a : string) : a +:+ "" = a.
Proof.
  induction a as [| x a IH]; [reflexivity |].
  change (String x (a +:+ "") = String x a). now rewrite IH.
Qed.

Section PrintingProperties.

Variable print_operand : Operand -> string.

Lemma print_MoveOperands_app (os : string) (mo : MoveOperands.t) :
  print_MoveOperands print_operand os mo
  = os +:+ print_MoveOperands print_operand "" mo.
Proof.
  unfold print_MoveOperands.
  destruct (negb (Equals (MoveOperands.source mo) (MoveOperands.destination mo)));
    now rewrite ?string_app_assoc.
Qed.

Lemma print_ParallelMove_loop_spec (moves : list MoveOperands.t) :
  forall (first : bool) (os : string),
    print_ParallelMove_loop print_operand first moves os
    = os +:+ match map (print_MoveOperands print_operand "")
                       (List.filter (fun m => negb (MoveOperands.IsEliminated m)) moves)
             with
             | [] => ""
             | texts => (if first then "" else " ") +:+ String.concat " " texts
             end.
Proof.
  induction moves as [| move rest IH]; intros first os.
  - simpl. now rewrite string_app_empty_r.
  - simpl. destruct (MoveOperands.IsEliminated move); simpl; [apply IH |].
    rewrite IH. rewrite print_MoveOperands_app.
    destruct (map _ (List.filter _ rest)) as [| text texts].
    + rewrite string_app_empty_r.
      destruct first; simpl; now rewrite ?string_app_assoc.
    + destruct first; simpl; now rewrite ?string_app_assoc.
Qed.

End PrintingProperties.

(** X15. What is printed for a parallel move is the text of its moves that
    are not eliminated, in their order, with one space between two of them
    and none before the first or after the last; an eliminated move leaves
    no trace, and a parallel move with none but eliminated moves prints as
    nothing. *)
Theorem print_ParallelMove_joins_live_moves
    (print_operand : Operand -> string) (os : string) (pm : ParallelMove.t) :
  print_ParallelMove print_operand os pm
  = os +:+ String.concat " "
             (map (print_MoveOperands print_operand "")
                  (List.filter (fun m => negb (MoveOperands.IsEliminated m))
                               (ParallelMove.move_operands_ pm))).
Proof.
  unfold print_ParallelMove. rewrite print_ParallelMove_loop_spec.
  now destruct (map _ (List.filter _ _)).
Qed.

Example print_ParallelMove_sample :
  print_ParallelMove sample_print_operand "gap ("
    (ParallelMove.Build
       [MoveOperands.Build (Register 0) (Register 1) false;
        MoveOperands.Build (Register 0) (Register 2) true;
        MoveOperands.Build (Register 2) (Register 2) false])
  = "gap (r1 = r0; r2;".
Proof. reflexivity. Qed.

(** ** Calls on different members *)

Lemma GetVirtualRegister_frame (s s' : InstructionSequence.t) (id : Z) :
  InstructionSequence.node_map_ s' = InstructionSequence.node_map_ s ->
  InstructionSequence.next_virtual_register_ s'
  = InstructionSequence.next_virtual_register_ s ->
  InstructionSequence.GetVirtualRegister id s'
  = (do (r, t) <- InstructionSequence.GetVirtualRegister id s;
     Ok (r, InstructionSequence.set_next_virtual_register
              (InstructionSequence.next_virtual_register_ t)
              (InstructionSequence.set_node_map (InstructionSequence.node_map_ t) s'))).
Proof.
  destruct s as [z nm l nv pms des], s' as [z' nm' l' nv' pms' des']. simpl.
  intros -> ->.
  unfold InstructionSequence.GetVirtualRegister, InstructionSequence.node_map_at,
         InstructionSequence.NextVirtualRegister, deref. simpl.
  destruct (id <? 0); [reflexivity |].
  destruct (nm !! Z.to_nat id) as [v |] eqn:Hv; [| reflexivity]. simpl.
  destruct (v =? -1); simpl.
  - destruct (<[Z.to_nat id := nv]> nm !! Z.to_nat id); reflexivity.
  - rewrite Hv. reflexivity.
Qed.

Lemma GetVirtualRegister_changes (s s2 : InstructionSequence.t) (id r : Z) :
  InstructionSequence.GetVirtualRegister id s = Ok (r, s2) ->
  s2 = InstructionSequence.set_next_virtual_register
         (InstructionSequence.next_virtual_register_ s2)
         (InstructionSequence.set_node_map (InstructionSequence.node_map_ s2) s).
Proof.
  destruct s as [z nm l nv pms des].
  unfold InstructionSequence.GetVirtualRegister, InstructionSequence.node_map_at,
         InstructionSequence.NextVirtualRegister, deref. simpl.
  destruct (id <? 0); [discriminate |].
  destruct (nm !! Z.to_nat id) as [v |] eqn:Hv; [| discriminate]. simpl.
  destruct (v =? -1); simpl.
  - destruct (<[Z.to_nat id := nv]> nm !! Z.to_nat id); [| discriminate].
    simpl. now intros [= _ <-].
  - rewrite Hv. simpl. now intros [= _ <-].
Qed.

Lemma AddInstruction_frame
    (s : InstructionSequence.t) (instr : InstructionPtr) (block : BasicBlockPtr)
    (nm : list Z) (nv : Z) :
  InstructionSequence.AddInstruction instr block
    (InstructionSequence.set_next_virtual_register nv
       (InstructionSequence.set_node_map nm s))
  = (do (index, t) <- InstructionSequence.AddInstruction instr block s;
     Ok (index, InstructionSequence.set_next_virtual_register nv
                  (InstructionSequence.set_node_map nm t))).
Proof.
  destruct s as [z nm0 l nv0 pms des].
  unfold InstructionSequence.AddInstruction, deref. simpl.
  destruct (Zone.instructions z !! instr) as [i |]; [| reflexivity]. simpl.
  destruct (Instruction.NeedsPointerMap i); [| reflexivity].
  destruct (bool_decide (Instruction.pointer_map i = None)); reflexivity.
Qed.

(** X16. [AddInstruction] and [GetVirtualRegister] work on different
    members of the sequence: when each of them returns on a sequence, they
    return the same results in either order, and both orders lead to the
    same sequence. *)
Theorem AddInstruction_GetVirtualRegister_commute
    (s s1 s2 : InstructionSequence.t) (instr : InstructionPtr) (block : BasicBlockPtr)
    (id index r : Z) :
  InstructionSequence.AddInstruction instr block s = Ok (index, s1) ->
  InstructionSequence.GetVirtualRegister id s = Ok (r, s2) ->
  exists s3,
    InstructionSequence.GetVirtualRegister id s1 = Ok (r, s3)
    /\ InstructionSequence.AddInstruction instr block s2 = Ok (index, s3).
Proof.
  intros Hadd Hget.
  destruct (AddInstruction_effect _ _ _ _ _ Hadd)
    as (i & _ & _ & _ & _ & _ & _ & _ & Hnm & Hnv & _).
  exists (InstructionSequence.set_next_virtual_register
            (InstructionSequence.next_virtual_register_ s2)
            (InstructionSequence.set_node_map (InstructionSequence.node_map_ s2) s1)).
  split.
  - rewrite (GetVirtualRegister_frame s s1 id Hnm Hnv), Hget. reflexivity.
  - rewrite (GetVirtualRegister_changes s s2 id r Hget) at 1.
    rewrite AddInstruction_frame, Hadd. reflexivity.
Qed.

Lemma AddInstruction_GetVirtualRegister_commute_witness :
  exists s3,
    InstructionSequence.GetVirtualRegister 2
      (InstructionSequence.set_pointer_maps [0%nat]
         (InstructionSequence.set_zone
            (Zone.Build
               [sample_add; Instruction.set_pointer_map 0 sample_call; sample_ret;
                sample_block_start; GapInstruction.New]
               [PointerMap.Build [] [] (Some 0)])
            (InstructionSequence.set_instructions [1; 4]%nat sample_sequence)))
    = Ok (0, s3)
    /\ InstructionSequence.AddInstruction 1 0
         (InstructionSequence.set_next_virtual_register 1
            (InstructionSequence.set_node_map [-1; -1; 0; -1] sample_sequence))
       = Ok (0, s3).
Proof.
  apply (AddInstruction_GetVirtualRegister_commute sample_sequence _ _ 1 0 2 0 0);
    reflexivity.
Defined.

(** ** Nodes outside the graph *)

(** X17. [GetVirtualRegister] returns exactly for the node ids from 0 up
    to, and not including, the size of [node_map_], which it never
    changes; for any other id it reads the raw array out of bounds, which
    no check catches. *)
Theorem GetVirtualRegister_returns_iff_in_range (s : InstructionSequence.t) (id : Z) :
  (0 <= id < Z.of_nat (length (InstructionSequence.node_map_ s)) ->
   exists r s',
     InstructionSequence.GetVirtualRegister id s = Ok (r, s')
     /\ length (InstructionSequence.node_map_ s')
        = length (InstructionSequence.node_map_ s))
  /\ (~ 0 <= id < Z.of_nat (length (InstructionSequence.node_map_ s)) ->
      InstructionSequence.GetVirtualRegister id s = Undefined).
Proof.
  unfold InstructionSequence.GetVirtualRegister, InstructionSequence.node_map_at,
         InstructionSequence.NextVirtualRegister, deref.
  split.
  - intros Hid. destruct (Z.ltb_spec id 0) as [H | _]; [lia |].
    assert (Hlt : (Z.to_nat id < length (InstructionSequence.node_map_ s))%nat) by lia.
    destruct (InstructionSequence.node_map_ s !! Z.to_nat id) as [v |] eqn:Hv.
    2: { apply lookup_ge_None in Hv. lia. }
    simpl. destruct (v =? -1); simpl.
    + rewrite list_lookup_insert_eq by exact Hlt. simpl.
      eexists. eexists. split; [reflexivity |]. simpl. apply length_insert.
    + rewrite Hv. simpl. eauto.
  - intros Hid. destruct (Z.ltb_spec id 0) as [H | H]; [reflexivity |].
    destruct (InstructionSequence.node_map_ s !! Z.to_nat id) as [v |] eqn:Hv;
      [| reflexivity].
    apply lookup_lt_Some in Hv. lia.
Qed.

Lemma GetVirtualRegister_returns_iff_in_range_witness :
  InstructionSequence.GetVirtualRegister 4 sample_sequence = Undefined
  /\ exists r s',
       InstructionSequence.GetVirtualRegister 3 sample_sequence = Ok (r, s')
       /\ length (InstructionSequence.node_map_ s') = 4%nat.
Proof.
  split.
  - apply (proj2 (GetVirtualRegister_returns_iff_in_range sample_sequence 4)).
    vm_compute. intros [_ H]. discriminate.
  - apply (proj1 (GetVirtualRegister_returns_iff_in_range sample_sequence 3)).
    vm_compute. split; [discriminate | reflexivity].
Defined.
